(** * The write-side engine of libarchive: [archive_write.c]

    A shallow embedding of the write handle's state machine, its filter
    chain and the client sink adapter, followed by the properties of the
    handle's operations.

    Machine integers follow the LP64 data model: [int] is 32 bits wide,
    [size_t], [ssize_t], [int64_t], [dev_t] and [ino_t] are 64 bits wide.
    They are carried as [Z] and every conversion the C code performs is
    written out. *)

From Stdlib Require Import ZArith List String Bool Lia.
From Stdlib Require Import Init.Byte.
Import ListNotations.
Local Open Scope Z_scope.

(** ** Status codes *)

(** Modelled from the spec: the status codes of [archive.h], which is not
    part of the sources at hand.  Success is [0] ("Returns 0 if
    successful"); severity grows as the value decreases:
    [OK > Warn > Failed > Fatal]. *)
Definition ARCHIVE_OK : Z := 0.
Definition ARCHIVE_WARN : Z := -20.
Definition ARCHIVE_FAILED : Z := -25.
Definition ARCHIVE_FATAL : Z := -30.

(** Modelled from the spec: the error number [archive.h] gives to
    errors that have no [errno] of their own. *)
Definition ARCHIVE_ERRNO_MISC : Z := -1.

(** ** Handle states *)

(** Modelled from the spec: the state masks of [archive_private.h], not
    part of the sources at hand.  The states are "bitmask-composable":
    every state owns one bit, and [ARCHIVE_STATE_ANY] covers them all. *)
Definition ARCHIVE_STATE_NEW : Z := 1.
Definition ARCHIVE_STATE_HEADER : Z := 2.
Definition ARCHIVE_STATE_DATA : Z := 4.
Definition ARCHIVE_STATE_CLOSED : Z := 32.
Definition ARCHIVE_STATE_FATAL : Z := 32768.
Definition ARCHIVE_STATE_ANY : Z := 65535.

(** ** Integer conversions *)

(** [(int)x]: reduction to a signed 32-bit value. *)
Definition to_int (x : Z) : Z := (x + 2 ^ 31) mod 2 ^ 32 - 2 ^ 31.

(** Conversion to [size_t]: reduction modulo [2^64]. *)
Definition to_size_t (x : Z) : Z := x mod 2 ^ 64.

(** Conversion to [int64_t]: reduction to a signed 64-bit value. *)
Definition to_int64 (x : Z) : Z := (x + 2 ^ 63) mod 2 ^ 64 - 2 ^ 63.

(** [p & mask] read as a C condition. *)
Definition has_bits (p mask : Z) : bool := negb (Z.land p mask =? 0).

(** ** Entries *)

(** The entry metadata object is opaque to the engine, which reads only
    its device and inode numbers ([archive_entry_dev], a [dev_t], and
    [archive_entry_ino64], an [int64_t]). *)
Record archive_entry : Type := {
  archive_entry_dev : Z;
  archive_entry_ino64 : Z
}.

(** ** Hook invocations

    Every call that leaves this file through a function pointer is
    recorded, in order.  Filters are named by their position in the
    chain, counted from [filter_first]. *)
Inductive event : Type :=
| call_format_options (key : string) (val : option string)
| call_format_init
| call_format_write_header (entry : archive_entry)
| call_format_finish_entry
| call_format_finish
| call_filter_options (n : nat) (key : string) (val : option string)
| call_filter_open (n : nat)
| call_filter_write (n : nat) (length : Z)
| call_filter_close (n : nat)
| call_client_opener
| call_client_writer (length : Z) (written : Z)
| call_client_closer.

(** A function pointer stored in a filter slot: either the client sink
    adapter's function defined in this file, or a function of some filter
    implemented elsewhere. *)
Inductive fn (T : Type) : Type :=
| client_adapter : fn T
| external : T -> fn T.
Arguments client_adapter {T}.
Arguments external {T} _.

(** Why a call did not return to its caller. *)
Inductive fault : Type :=
| InvalidState (function : string)  (* [__archive_check_magic] stopped the call *)
| NullPointer                       (* a null pointer was followed or called *)
| OutOfBounds                       (* a pointer was moved past its string *)
| OutOfFuel.                        (* the step budget of a loop ran out *)

(** The statuses the option-setting operations return. *)
Definition option_status (r : Z) : Prop :=
  r = ARCHIVE_OK \/ r = ARCHIVE_WARN \/ r = ARCHIVE_FATAL.

(** ** What a run of the client sink adapter's write loop looks like

    [flushes length evs r]: offered [length] bytes, the loop made the
    writer calls [evs] and returned [r].  Every call but the last one
    accepted at least one byte and no more than it was offered; the loop
    ends with OK once nothing is left, with the writer's own negative
    count when the writer reports one, and with Fatal when the writer
    accepts nothing. *)
Inductive flushes : Z -> list event -> Z -> Prop :=
| flush_done : flushes 0 [] ARCHIVE_OK
| flush_error length written :
    0 < length -> written < 0 ->
    flushes length [call_client_writer length written] written
| flush_stall length :
    0 < length ->
    flushes length [call_client_writer length 0] ARCHIVE_FATAL
| flush_more length written evs r :
    0 < written <= length ->
    flushes (length - written) evs r ->
    flushes length (call_client_writer length written :: evs) r.

(** The number of bytes the writer accepted over the recorded calls. *)
Fixpoint accepted (evs : list event) : Z :=
  match evs with
  | [] => 0
  | call_client_writer _ written :: evs' =>
      (if 0 <? written then written else 0) + accepted evs'
  | _ :: evs' => accepted evs'
  end.

Section Engine.

(** [W] is the state owned by the code behind the hooks: the format
    backend's private data, each filter's private data, the client's
    sink.  The hooks read and update it; the handle's own fields are
    written only by the functions of this file.  That is the contract
    assumed of a hook here: what a hook does to the handle it is given
    (recording an error with [archive_set_error], or a filter passing
    its output on to the next node, which adds to that node's byte
    count) is not followed. *)
Variable W : Type.

(** [ptr] stands for [void *]. *)
Variable ptr : Type.

Definition hook : Type := W -> Z * W.
Definition option_hook : Type := string -> option string -> hook.
Definition write_hook : Type := list byte -> Z -> hook.

(** [struct archive_write_filter].  The [next_filter] link is the list
    structure of the chain; [archive] is the handle the chain lives
    in. *)
Record archive_write_filter : Type := {
  bytes_written : Z;
  options : option option_hook;
  open : option (fn hook);
  write : option (fn write_hook);
  close : option (fn hook);
  data : option ptr;
  name : option string;   (* [None] is the null pointer *)
  code : Z
}.

(** [struct archive_write], with the fields of the embedded
    [struct archive] this file uses. *)
Record archive_write : Type := {
  state : Z;
  error : option (Z * string);
  compression_name : string;
  skip_file_dev : Z;
  skip_file_ino : Z;
  client_opener : option (option ptr -> hook);
  client_writer : option (option ptr -> write_hook);
  client_closer : option (option ptr -> hook);
  filters : list archive_write_filter;
  format_name : string;
  format_init : option hook;
  format_options : option option_hook;
  format_finish_entry : option hook;
  format_write_header : option (archive_entry -> hook);
  format_finish : option hook
}.

Definition set_state (s : Z) (a : archive_write) : archive_write :=
  {| state := s; error := error a;
     compression_name := compression_name a;
     skip_file_dev := skip_file_dev a; skip_file_ino := skip_file_ino a;
     client_opener := client_opener a; client_writer := client_writer a;
     client_closer := client_closer a; filters := filters a;
     format_name := format_name a; format_init := format_init a;
     format_options := format_options a;
     format_finish_entry := format_finish_entry a;
     format_write_header := format_write_header a;
     format_finish := format_finish a |}.

Definition set_error_field (e : option (Z * string)) (a : archive_write)
  : archive_write :=
  {| state := state a; error := e;
     compression_name := compression_name a;
     skip_file_dev := skip_file_dev a; skip_file_ino := skip_file_ino a;
     client_opener := client_opener a; client_writer := client_writer a;
     client_closer := client_closer a; filters := filters a;
     format_name := format_name a; format_init := format_init a;
     format_options := format_options a;
     format_finish_entry := format_finish_entry a;
     format_write_header := format_write_header a;
     format_finish := format_finish a |}.

Definition set_skip_file (d i : Z) (a : archive_write) : archive_write :=
  {| state := state a; error := error a;
     compression_name := compression_name a;
     skip_file_dev := d; skip_file_ino := i;
     client_opener := client_opener a; client_writer := client_writer a;
     client_closer := client_closer a; filters := filters a;
     format_name := format_name a; format_init := format_init a;
     format_options := format_options a;
     format_finish_entry := format_finish_entry a;
     format_write_header := format_write_header a;
     format_finish := format_finish a |}.

Definition set_client (o : option (option ptr -> hook))
    (w : option (option ptr -> write_hook))
    (c : option (option ptr -> hook)) (a : archive_write) : archive_write :=
  {| state := state a; error := error a;
     compression_name := compression_name a;
     skip_file_dev := skip_file_dev a; skip_file_ino := skip_file_ino a;
     client_opener := o; client_writer := w;
     client_closer := c; filters := filters a;
     format_name := format_name a; format_init := format_init a;
     format_options := format_options a;
     format_finish_entry := format_finish_entry a;
     format_write_header := format_write_header a;
     format_finish := format_finish a |}.

Definition set_filters (fs : list archive_write_filter) (a : archive_write)
  : archive_write :=
  {| state := state a; error := error a;
     compression_name := compression_name a;
     skip_file_dev := skip_file_dev a; skip_file_ino := skip_file_ino a;
     client_opener := client_opener a; client_writer := client_writer a;
     client_closer := client_closer a; filters := fs;
     format_name := format_name a; format_init := format_init a;
     format_options := format_options a;
     format_finish_entry := format_finish_entry a;
     format_write_header := format_write_header a;
     format_finish := format_finish a |}.

Definition set_bytes_written (n : Z) (f : archive_write_filter)
  : archive_write_filter :=
  {| bytes_written := n; options := options f; open := open f;
     write := write f; close := close f; data := data f;
     name := name f; code := code f |}.

(** *** The machine and its monad *)

Record machine : Type := {
  handle : archive_write;
  world : W;
  trace : list event
}.

Inductive outcome (A : Type) : Type :=
| Returned (r : A) (m : machine)
| Stopped (f : fault).
Arguments Returned {A} r m.
Arguments Stopped {A} f.

Definition M (A : Type) : Type := machine -> outcome A.

Definition pure {A} (x : A) : M A := fun m => Returned x m.

Definition bind {A B} (c : M A) (k : A -> M B) : M B :=
  fun m => match c m with
           | Returned x m' => k x m'
           | Stopped f => Stopped f
           end.

Definition stop {A} (f : fault) : M A := fun _ => Stopped f.

Local Notation "x <- c ;; k" := (bind c (fun x => k))
  (at level 61, c at next level, right associativity).
Local Notation "c ;; k" := (bind c (fun _ => k))
  (at level 61, right associativity).

Definition get_archive : M archive_write :=
  fun m => Returned (handle m) m.

Definition update (g : archive_write -> archive_write) : M unit :=
  fun m => Returned tt
    {| handle := g (handle m); world := world m; trace := trace m |}.

(** A call through a function pointer that the code does not test for
    null beforehand; [ev] builds the record of the call from the value
    the callee returned. *)
Definition invoke_log (ev : Z -> event) (h : option hook) : M Z :=
  match h with
  | None => stop NullPointer
  | Some h =>
      fun m => let (r, w) := h (world m) in
               Returned r {| handle := handle m; world := w;
                             trace := trace m ++ [ev r] |}
  end.

Definition invoke (ev : event) (h : option hook) : M Z :=
  invoke_log (fun _ => ev) h.

(** *** Helpers of [archive_util.c] and [archive_check_magic.c] *)

(** Modelled from the spec: [__archive_check_magic], defined outside
    this file.  "Any operation invoked outside its legal state set
    fails with an InvalidState error": the handle is left as it is and
    the operation goes no further.  [archive_write.c] ignores the
    helper's value, so the helper itself ends the call. *)
Definition __archive_check_magic (states : Z) (function : string) : M unit :=
  a <- get_archive ;;
  if states =? ARCHIVE_STATE_ANY then pure tt
  else if has_bits (state a) states then pure tt
  else stop (InvalidState function).

(** Modelled from the spec: [archive_clear_error], defined outside this
    file.  "last_error: current error message/code, cleared at the
    start of most operations". *)
Definition archive_clear_error : M unit :=
  update (set_error_field None).

(** Modelled from the spec: [archive_set_error], defined outside this
    file; it records the error code and message as the handle's
    current error. *)
Definition archive_set_error (number : Z) (message : string) : M unit :=
  update (set_error_field (Some (number, message))).

(** *** Filter chain *)

(** An assignment to fields of the node at position [n]. *)
Definition modify_filter (n : nat)
    (g : archive_write_filter -> archive_write_filter) : M unit :=
  update (fun a =>
    set_filters
      (firstn n (filters a) ++
       match nth_error (filters a) n with
       | Some f => [g f]
       | None => []
       end ++ skipn (S n) (filters a)) a).

(** Following the pointer to the node at position [n]. *)
Definition get_filter (n : nat) : M archive_write_filter :=
  a <- get_archive ;;
  match nth_error (filters a) n with
  | Some f => pure f
  | None => stop NullPointer
  end.

(** The node [calloc] returns: every field zero or null. *)
Definition blank_filter : archive_write_filter :=
  {| bytes_written := 0; options := None; open := None; write := None;
     close := None; data := None; name := None; code := 0 |}.

(** [__archive_write_allocate_filter]: the new node goes to the end of
    the chain; the value returned is its position. *)
Definition __archive_write_allocate_filter : M nat :=
  __archive_check_magic ARCHIVE_STATE_NEW "archive_write_allocate_filter" ;;
  a <- get_archive ;;
  update (set_filters (filters a ++ [blank_filter])) ;;
  pure (List.length (filters a)).

(** [archive_write_client_open] *)
Definition archive_write_client_open (f : archive_write_filter) : M Z :=
  a <- get_archive ;;
  match client_opener a with
  | None => pure ARCHIVE_OK
  | Some opener => invoke call_client_opener (Some (opener (data f)))
  end.

(** [archive_write_client_write].  [length] is a [size_t]; [written]
    is the [ssize_t] the client's writer returned. *)
Fixpoint archive_write_client_write (fuel : nat) (f : archive_write_filter)
    (buff : list byte) (length : Z) : M Z :=
  if 0 <? length then
    match fuel with
    | O => stop OutOfFuel
    | S fuel' =>
        a <- get_archive ;;
        written <- invoke_log (call_client_writer length)
                     (option_map (fun w => w (data f) buff length)
                                 (client_writer a)) ;;
        if written <? 0 then pure (to_int written)
        else if written =? 0 then pure ARCHIVE_FATAL
        else archive_write_client_write fuel' f
               (skipn (Z.to_nat written) buff)
               (to_size_t (length - written))
    end
  else pure ARCHIVE_OK.

(** What the loop of [archive_write_client_write] does to the client's
    sink.  [drains writer d buff length w r w']: starting from the world
    [w] with the [length] bytes of [buff] to write, the calls of
    [writer] on the client data [d] leave the world [w'] and the loop
    returns [r].  Each call is handed the part of the buffer the calls
    before it did not accept, and the number of bytes still to write. *)
Inductive drains (writer : option ptr -> write_hook) (d : option ptr)
  : list byte -> Z -> W -> Z -> W -> Prop :=
| drain_done buff w :
    drains writer d buff 0 w ARCHIVE_OK w
| drain_error buff length w :
    0 < length ->
    fst (writer d buff length w) < 0 ->
    drains writer d buff length w
      (fst (writer d buff length w)) (snd (writer d buff length w))
| drain_stall buff length w :
    0 < length ->
    fst (writer d buff length w) = 0 ->
    drains writer d buff length w
      ARCHIVE_FATAL (snd (writer d buff length w))
| drain_more buff length w r w' :
    0 < fst (writer d buff length w) <= length ->
    drains writer d
      (skipn (Z.to_nat (fst (writer d buff length w))) buff)
      (length - fst (writer d buff length w))
      (snd (writer d buff length w)) r w' ->
    drains writer d buff length w r w'.

(** [archive_write_client_close] *)
Definition archive_write_client_close (f : archive_write_filter) : M Z :=
  a <- get_archive ;;
  match client_closer a with
  | None => pure ARCHIVE_OK
  | Some closer => invoke call_client_closer (Some (closer (data f)))
  end.

(** The call [(f->write)(f, buff, length)].  A filter implemented
    elsewhere hands its output on to the next node from inside its own
    code; what that does to the nodes downstream belongs to [W] and is
    not followed here. *)
Definition call_write (fuel : nat) (n : nat) (f : archive_write_filter)
    (buff : list byte) (length : Z) : M Z :=
  match write f with
  | None => stop NullPointer
  | Some client_adapter => archive_write_client_write fuel f buff length
  | Some (external h) =>
      invoke (call_filter_write n length) (Some (h buff length))
  end.

(** [__archive_write_filter], on the node at position [n] *)
Definition __archive_write_filter (fuel : nat) (n : nat)
    (buff : list byte) (length : Z) : M Z :=
  f <- get_filter n ;;
  r <- call_write fuel n f buff length ;;
  modify_filter n
    (fun f => set_bytes_written (to_int64 (bytes_written f + length)) f) ;;
  pure r.

(** [__archive_write_open_filter] *)
Definition __archive_write_open_filter (n : nat) : M Z :=
  f <- get_filter n ;;
  match open f with
  | None => pure ARCHIVE_OK
  | Some client_adapter => archive_write_client_open f
  | Some (external h) => invoke (call_filter_open n) (Some h)
  end.

(** [__archive_write_close_filter] *)
Definition __archive_write_close_filter (n : nat) : M Z :=
  f <- get_filter n ;;
  match close f with
  | None => pure ARCHIVE_OK
  | Some client_adapter => archive_write_client_close f
  | Some (external h) => invoke (call_filter_close n) (Some h)
  end.

(** [__archive_write_output] *)
Definition __archive_write_output (fuel : nat) (buff : list byte)
    (length : Z) : M Z :=
  __archive_write_filter fuel 0 buff length.

(** *** Option dispatch *)

(** Modelled from the spec: [__archive_parse_options], the external
    tokenizer.  Called on the rest of the options string, the name of
    the module the options are meant for and the capacities of the key
    and value buffers, it yields the number of characters it consumed
    and the key and value it read; zero means the string is
    exhausted, a negative number that it is malformed. *)
Variable __archive_parse_options :
  string -> string -> Z -> Z -> Z * string * string.

(** [val[0] == 0 ? NULL : val] *)
Definition val_or_null (val : string) : option string :=
  match val with
  | EmptyString => None
  | _ => Some val
  end.

(** [s += len].  Moving [s] past its terminating zero leaves the
    string; the model stops there. *)
Definition advance (s : string) (len : Z) : M string :=
  if (Z.to_nat len <=? String.length s)%nat
  then pure (substring (Z.to_nat len)
               (String.length s - Z.to_nat len) s)
  else stop OutOfBounds.

(** The message set when a handler does not take [key]. *)
Definition unsupported_option (key : string) : string :=
  ("Unsupported option ``" ++ key ++ "''")%string.

(** The [while] loop of [archive_write_set_format_options]; the loop
    leaves the function at once ([inl r]) or falls through to the test
    of [len] ([inr (len, ret)]). *)
Fixpoint format_options_loop (fuel : nat) (s : string) (ret : Z)
  : M (Z + Z * Z) :=
  a <- get_archive ;;
  let '(len, key, val) :=
    __archive_parse_options s (format_name a) 64 64 in
  if 0 <? len then
    match fuel with
    | O => stop OutOfFuel
    | S fuel' =>
        r <- invoke (call_format_options key (val_or_null val))
               (option_map (fun h => h key (val_or_null val))
                           (format_options a)) ;;
        if r =? ARCHIVE_FATAL then pure (inl r)
        else
          ret' <- (if r <? ARCHIVE_OK
                   then archive_set_error ARCHIVE_ERRNO_MISC
                          (unsupported_option key) ;;
                        pure ARCHIVE_WARN
                   else pure ret) ;;
          s' <- advance s len ;;
          format_options_loop fuel' s' ret'
    end
  else pure (inr (len, ret)).

(** [archive_write_set_format_options]; [s = None] is the null
    pointer.  Every round of the loop consumes at least one character,
    so [S (length s)] rounds are never used up. *)
Definition archive_write_set_format_options (s : option string) : M Z :=
  __archive_check_magic ARCHIVE_STATE_NEW
    "archive_write_set_format_options" ;;
  archive_clear_error ;;
  match s with
  | None => pure ARCHIVE_OK
  | Some EmptyString => pure ARCHIVE_OK
  | Some s =>
      a <- get_archive ;;
      match format_options a with
      | None => pure ARCHIVE_OK
      | Some _ =>
          x <- format_options_loop (S (String.length s)) s ARCHIVE_OK ;;
          match x with
          | inl r => pure r
          | inr (len, ret) =>
              if len <? 0 then
                archive_set_error ARCHIVE_ERRNO_MISC
                  "Malformed options string." ;;
                pure ARCHIVE_WARN
              else pure ret
          end
      end
  end.

(** The [while] loop of [archive_write_set_compressor_options] for the
    filter at position [n], whose handler is [h]. *)
Fixpoint filter_options_loop (fuel : nat) (n : nat) (h : option_hook)
    (s : string) (ret : Z) : M (Z + Z * string * Z) :=
  a <- get_archive ;;
  let '(len, key, val) :=
    __archive_parse_options s (compression_name a) 64 64 in
  if 0 <? len then
    match fuel with
    | O => stop OutOfFuel
    | S fuel' =>
        r <- invoke (call_filter_options n key (val_or_null val))
               (Some (h key (val_or_null val))) ;;
        if r =? ARCHIVE_FATAL then pure (inl r)
        else
          ret' <- (if r <? ARCHIVE_OK
                   then archive_set_error ARCHIVE_ERRNO_MISC
                          (unsupported_option key) ;;
                        pure ARCHIVE_WARN
                   else pure ret) ;;
          s' <- advance s len ;;
          filter_options_loop fuel' n h s' ret'
    end
  else pure (inr (len, s, ret)).

(** The [for] loop over the chain, from the node at position [n] on. *)
Fixpoint filters_options_loop (fs : list archive_write_filter) (n : nat)
    (len : Z) (s : string) (ret : Z) : M (Z + Z * Z) :=
  match fs with
  | [] => pure (inr (len, ret))
  | filter :: fs' =>
      match options filter with
      | None => filters_options_loop fs' (S n) len s ret
      | Some h =>
          x <- filter_options_loop (S (String.length s)) n h s ret ;;
          match x with
          | inl r => pure (inl r)
          | inr (len', s', ret') =>
              filters_options_loop fs' (S n) len' s' ret'
          end
      end
  end.

(** [archive_write_set_compressor_options] *)
Definition archive_write_set_compressor_options (s : option string)
  : M Z :=
  __archive_check_magic ARCHIVE_STATE_NEW
    "archive_write_set_compressor_options" ;;
  archive_clear_error ;;
  match s with
  | None => pure ARCHIVE_OK
  | Some EmptyString => pure ARCHIVE_OK
  | Some s =>
      a <- get_archive ;;
      x <- filters_options_loop (filters a) 0 0 s ARCHIVE_OK ;;
      match x with
      | inl r => pure r
      | inr (len, ret) =>
          if len <? 0 then
            archive_set_error ARCHIVE_ERRNO_MISC
              "Illegal format options." ;;
            pure ARCHIVE_WARN
          else pure ret
      end
  end.

(** [archive_write_set_options] *)
Definition archive_write_set_options (s : option string) : M Z :=
  r1 <- archive_write_set_format_options s ;;
  if r1 <? ARCHIVE_WARN then pure r1
  else
    r2 <- archive_write_set_compressor_options s ;;
    if r2 <? ARCHIVE_WARN then pure r2
    else if (r1 =? ARCHIVE_WARN) && (r2 =? ARCHIVE_WARN)
         then pure ARCHIVE_WARN
         else pure ARCHIVE_OK.

(** [archive_write_set_skip_file].  [d] is a [dev_t] and [i] an
    [ino_t]; the handle keeps each in a 64-bit field. *)
Definition archive_write_set_skip_file (d i : Z) : M Z :=
  __archive_check_magic ARCHIVE_STATE_ANY "archive_write_set_skip_file" ;;
  update (set_skip_file (to_int64 d) (to_int64 i)) ;;
  pure ARCHIVE_OK.

(** *** Opening and closing *)

(** Modelled from the spec: [archive_write_set_compression_none],
    defined outside this file.  "If no filters were configured, append
    a pass-through filter so the chain is non-empty": it allocates one
    node and installs the pass-through filter's slots, here
    [compression_none]. *)
Variable compression_none : archive_write_filter.

Definition archive_write_set_compression_none : M Z :=
  f <- __archive_write_allocate_filter ;;
  modify_filter f (fun _ => compression_none) ;;
  pure ARCHIVE_OK.

(** [archive_write_open] *)
Definition archive_write_open (client_data : option ptr)
    (opener : option (option ptr -> hook))
    (writer : option (option ptr -> write_hook))
    (closer : option (option ptr -> hook)) : M Z :=
  __archive_check_magic ARCHIVE_STATE_NEW "archive_write_open" ;;
  archive_clear_error ;;
  a <- get_archive ;;
  match filters a with
  | [] => archive_write_set_compression_none
  | _ => pure ARCHIVE_OK
  end ;;
  update (set_client opener writer closer) ;;
  client_filter <- __archive_write_allocate_filter ;;
  modify_filter client_filter (fun f =>
    {| bytes_written := bytes_written f; options := options f;
       open := Some client_adapter; write := Some client_adapter;
       close := Some client_adapter; data := client_data;
       name := name f; code := code f |}) ;;
  ret <- __archive_write_open_filter 0 ;;
  update (set_state ARCHIVE_STATE_HEADER) ;;
  a <- get_archive ;;
  match format_init a with
  | Some init =>
      if ret =? ARCHIVE_OK then invoke call_format_init (Some init)
      else pure ret
  | None => pure ret
  end.

(** [_archive_write_close] *)
Definition _archive_write_close : M Z :=
  a <- get_archive ;;
  if has_bits (state a) ARCHIVE_STATE_FATAL then pure ARCHIVE_FATAL
  else
    archive_clear_error ;;
    if has_bits (state a)
         (Z.lor ARCHIVE_STATE_NEW ARCHIVE_STATE_CLOSED)
    then pure ARCHIVE_OK
    else
      __archive_check_magic
        (Z.lor ARCHIVE_STATE_HEADER ARCHIVE_STATE_DATA)
        "archive_write_close" ;;
      r <- (if has_bits (state a) ARCHIVE_STATE_DATA
            then invoke call_format_finish_entry (format_finish_entry a)
            else pure ARCHIVE_OK) ;;
      r <- match format_finish a with
           | Some finish =>
               r1 <- invoke call_format_finish (Some finish) ;;
               pure (if r1 <? r then r1 else r)
           | None => pure r
           end ;;
      r1 <- __archive_write_close_filter 0 ;;
      update (set_state ARCHIVE_STATE_CLOSED) ;;
      pure (if r1 <? r then r1 else r).

(** *** Entries *)

(** [_archive_write_finish_entry] *)
Definition _archive_write_finish_entry : M Z :=
  __archive_check_magic
    (Z.lor ARCHIVE_STATE_HEADER ARCHIVE_STATE_DATA)
    "archive_write_finish_entry" ;;
  a <- get_archive ;;
  ret <- (if has_bits (state a) ARCHIVE_STATE_DATA
          then invoke call_format_finish_entry (format_finish_entry a)
          else pure ARCHIVE_OK) ;;
  update (set_state ARCHIVE_STATE_HEADER) ;;
  pure ret.

(** [archive_write_finish_entry], the public entry point: the vtable
    built by [archive_write_vtable] sends it to
    [_archive_write_finish_entry]. *)
Definition archive_write_finish_entry : M Z := _archive_write_finish_entry.

(** The skip-file test of [_archive_write_header].  The device and the
    inode of the entry and of the handle are compared as 64-bit values:
    C brings both sides of [==] to one 64-bit type, so two numbers are
    equal exactly when they agree modulo [2^64], whatever the signedness
    of the two types. *)
Definition is_skip_file (a : archive_write) (entry : archive_entry) : bool :=
  negb (to_int64 (skip_file_dev a) =? 0) &&
  (to_int64 (archive_entry_dev entry) =? to_int64 (skip_file_dev a)) &&
  negb (to_int64 (skip_file_ino a) =? 0) &&
  (to_int64 (archive_entry_ino64 entry) =? to_int64 (skip_file_ino a)).

(** [_archive_write_header] *)
Definition _archive_write_header (entry : archive_entry) : M Z :=
  __archive_check_magic
    (Z.lor ARCHIVE_STATE_DATA ARCHIVE_STATE_HEADER)
    "archive_write_header" ;;
  archive_clear_error ;;
  ret <- archive_write_finish_entry ;;
  if ret =? ARCHIVE_FATAL then
    update (set_state ARCHIVE_STATE_FATAL) ;;
    pure ARCHIVE_FATAL
  else if (ret <? ARCHIVE_OK) && negb (ret =? ARCHIVE_WARN) then pure ret
  else
    a <- get_archive ;;
    if is_skip_file a entry then
      archive_set_error 0 "Can't add archive to itself" ;;
      pure ARCHIVE_FAILED
    else
      r2 <- invoke (call_format_write_header entry)
              (option_map (fun h => h entry) (format_write_header a)) ;;
      if r2 =? ARCHIVE_FATAL then
        update (set_state ARCHIVE_STATE_FATAL) ;;
        pure ARCHIVE_FATAL
      else
        update (set_state ARCHIVE_STATE_DATA) ;;
        pure (if r2 <? ret then r2 else ret).

(** *** Machines reached by single steps *)

(** The machine once the handle has been rewritten by [g]. *)
Definition with_handle (g : archive_write -> archive_write) (m : machine)
  : machine :=
  {| handle := g (handle m); world := world m; trace := trace m |}.

(** The machine once [archive_clear_error] has run. *)
Definition cleared (m : machine) : machine :=
  with_handle (set_error_field None) m.

(** The machine once a hook has returned: the hook's world, one more
    recorded call. *)
Definition called (ev : event) (w : W) (m : machine) : machine :=
  {| handle := handle m; world := w; trace := trace m ++ [ev] |}.

(** The machine with the handle moved to state [s]. *)
Definition moved (s : Z) (m : machine) : machine :=
  with_handle (set_state s) m.

(** The client sink adapter's node as [archive_write_open] fills it. *)
Definition client_filter (client_data : option ptr) : archive_write_filter :=
  {| bytes_written := 0; options := None;
     open := Some client_adapter; write := Some client_adapter;
     close := Some client_adapter; data := client_data;
     name := None; code := 0 |}.

(** The chain [archive_write_open] builds from the configured chain
    [fs]. *)
Definition opened_chain (fs : list archive_write_filter)
    (client_data : option ptr) : list archive_write_filter :=
  match fs with
  | [] => [compression_none]
  | _ => fs
  end ++ [client_filter client_data].

(** The machine at the point where [archive_write_open] opens the head
    of the chain. *)
Definition ready_to_open (client_data : option ptr)
    (opener : option (option ptr -> hook))
    (writer : option (option ptr -> write_hook))
    (closer : option (option ptr -> hook)) (m : machine) : machine :=
  with_handle (fun a =>
    set_filters (opened_chain (filters a) client_data)
      (set_client opener writer closer (set_error_field None a))) m.

(** The states in which [_archive_write_header] may be called. *)
Definition legal_for_header (m : machine) : Prop :=
  state (handle m) = ARCHIVE_STATE_HEADER \/
  state (handle m) = ARCHIVE_STATE_DATA.

(** Two handles that differ at most in their current error. *)
Definition error_only (a a' : archive_write) : Prop :=
  set_error_field None a' = set_error_field None a.

(** A tokenizer that never consumes more characters than the string
    holds. *)
Definition consumes_within
    (parse : string -> string -> Z -> Z -> Z * string * string) : Prop :=
  forall s fn ks vs,
    fst (fst (parse s fn ks vs)) <= Z.of_nat (String.length s).

(** The status [archive_write_set_options] builds from the statuses
    [r1] and [r2] of its two halves, neither of which is below Warn. *)
Definition combined_status (r1 r2 : Z) : Z :=
  if (r1 =? ARCHIVE_WARN) && (r2 =? ARCHIVE_WARN)
  then ARCHIVE_WARN else ARCHIVE_OK.

(** *** Introspection *)

(** [a->filter_last]: the node the latest
    [__archive_write_allocate_filter] put at the end of the chain. *)
Definition filter_last (a : archive_write) : option archive_write_filter :=
  nth_error (filters a) (List.length (filters a) - 1).

(** The loop of [filter_lookup]: [n] steps along [next_filter], fewer if
    the chain ends before. *)
Fixpoint filter_walk (n : nat) (f : list archive_write_filter)
  : list archive_write_filter :=
  match n, f with
  | S n', _ :: next_filter => filter_walk n' next_filter
  | _, _ => f
  end.

(** [filter_lookup]; [n] is an [int]. *)
Definition filter_lookup (a : archive_write) (n : Z)
  : option archive_write_filter :=
  if n =? -1 then filter_last a
  else if n <? 0 then None
  else hd_error (filter_walk (Z.to_nat n) (filters a)).

(** [_archive_filter_code] *)
Definition _archive_filter_code (a : archive_write) (n : Z) : Z :=
  match filter_lookup a n with
  | None => -1
  | Some f => code f
  end.

(** [_archive_filter_name]; [None] is the null pointer. *)
Definition _archive_filter_name (a : archive_write) (n : Z)
  : option string :=
  match filter_lookup a n with
  | None => None
  | Some f => name f
  end.

(** [_archive_filter_bytes] *)
Definition _archive_filter_bytes (a : archive_write) (n : Z) : Z :=
  match filter_lookup a n with
  | None => -1
  | Some f => bytes_written f
  end.

(** *** What the option loops do, said without the loops *)

(** The string [s += len] leaves. *)
Definition rest_of (s : string) (len : Z) : string :=
  substring (Z.to_nat len) (String.length s - Z.to_nat len) s.

(** The keys and values the tokenizer cuts out of [s] for the module
    named [fn], and the length it reports once it stops. *)
Fixpoint tokenize (fn : string) (fuel : nat) (s : string)
  : list (string * option string) * Z :=
  let '(len, key, val) := __archive_parse_options s fn 64 64 in
  if 0 <? len then
    match fuel with
    | O => ([], len)
    | S fuel' =>
        let (toks, last_len) := tokenize fn fuel' (rest_of s len) in
        ((key, val_or_null val) :: toks, last_len)
    end
  else ([], len).

(** The answers a handler gives when it is offered the tokens one after
    the other, up to and including its first Fatal, and the world it
    leaves. *)
Fixpoint answers (h : option_hook) (toks : list (string * option string))
    (w : W) : list Z * W :=
  match toks with
  | [] => ([], w)
  | (key, val) :: toks' =>
      let (r, w') := h key val w in
      if r =? ARCHIVE_FATAL then ([r], w')
      else let (rs, w'') := answers h toks' w' in (r :: rs, w'')
  end.

(** The status of an option-setting run whose handler gave the answers
    [rs] and whose tokenizer stopped with [len]. *)
Definition options_status (rs : list Z) (len : Z) : Z :=
  if existsb (fun r => r =? ARCHIVE_FATAL) rs then ARCHIVE_FATAL
  else if len <? 0 then ARCHIVE_WARN
  else if existsb (fun r => r <? ARCHIVE_OK) rs then ARCHIVE_WARN
  else ARCHIVE_OK.

(** The first node of the chain, counted from position [n], that has an
    options handler. *)
Fixpoint first_handler (n : nat) (fs : list archive_write_filter)
  : option (nat * option_hook) :=
  match fs with
  | [] => None
  | filter :: fs' =>
      match options filter with
      | Some h => Some (n, h)
      | None => first_handler (S n) fs'
      end
  end.

(** *** What closing does, said phase by phase *)

(** A phase of the teardown: the hook's answer and the world it leaves,
    or OK and the same world when there is no hook to call. *)
Definition phase (h : option hook) (w : W) : Z * W :=
  match h with
  | Some h => h w
  | None => (ARCHIVE_OK, w)
  end.

(** The record of a phase: one call if there is a hook. *)
Definition phase_calls (h : option hook) (ev : event) : list event :=
  match h with
  | Some _ => [ev]
  | None => []
  end.

(** The function closing the node [f] ends up calling: the node's own
    close hook, or for the client sink adapter the client's closer. *)
Definition close_hook (a : archive_write) (f : archive_write_filter)
  : option hook :=
  match close f with
  | None => None
  | Some client_adapter =>
      option_map (fun closer => closer (data f)) (client_closer a)
  | Some (external h) => Some h
  end.

(** How the call of [close_hook] is recorded for the node at position
    [n]. *)
Definition close_event (n : nat) (f : archive_write_filter) : event :=
  match close f with
  | Some client_adapter => call_client_closer
  | _ => call_filter_close n
  end.

(** The finish-entry hook [_archive_write_close] calls: the backend's
    in state DATA, none otherwise. *)
Definition pending_finish_entry (a : archive_write) : option hook :=
  if has_bits (state a) ARCHIVE_STATE_DATA
  then format_finish_entry a else None.

(** The calls of the backend's options handler on the tokens [toks]. *)
Definition format_calls (toks : list (string * option string))
  : list event :=
  map (fun kv => call_format_options (fst kv) (snd kv)) toks.

(** A call of the options handler of the filter at position [n]. *)
Definition is_filter_option_call (n : nat) (ev : event) : Prop :=
  exists key val, ev = call_filter_options n key val.

(** *** Sequences of calls *)

(** The calls a client makes on a handle over its life. *)
Inductive operation : Type :=
| do_open (client_data : option ptr)
    (opener : option (option ptr -> hook))
    (writer : option (option ptr -> write_hook))
    (closer : option (option ptr -> hook))
| do_set_skip_file (d i : Z)
| do_write_header (entry : archive_entry)
| do_finish_entry
| do_close.

Definition perform (o : operation) : M Z :=
  match o with
  | do_open client_data opener writer closer =>
      archive_write_open client_data opener writer closer
  | do_set_skip_file d i => archive_write_set_skip_file d i
  | do_write_header entry => _archive_write_header entry
  | do_finish_entry => _archive_write_finish_entry
  | do_close => _archive_write_close
  end.

(** One call after the other; the statuses are collected. *)
Fixpoint perform_all (os : list operation) : M (list Z) :=
  match os with
  | [] => pure []
  | o :: os' =>
      r <- perform o ;;
      rs <- perform_all os' ;;
      pure (r :: rs)
  end.

(** The five states of a write handle. *)
Definition write_state (s : Z) : Prop :=
  s = ARCHIVE_STATE_NEW \/ s = ARCHIVE_STATE_HEADER \/
  s = ARCHIVE_STATE_DATA \/ s = ARCHIVE_STATE_CLOSED \/
  s = ARCHIVE_STATE_FATAL.

(** Blocks handed to [__archive_write_output] one after the other, each
    with its length; the statuses are collected. *)
Fixpoint output_all (fuel : nat) (blocks : list (list byte * Z))
  : M (list Z) :=
  match blocks with
  | [] => pure []
  | (buff, length) :: blocks' =>
      r <- __archive_write_output fuel buff length ;;
      rs <- output_all fuel blocks' ;;
      pure (r :: rs)
  end.

(** The bytes offered over a list of blocks. *)
Definition offered (blocks : list (list byte * Z)) : Z :=
  fold_right (fun block total => snd block + total) 0 blocks.

End Engine.

Arguments Returned {W ptr A} r m.
Arguments Stopped {W ptr A} f.
Arguments blank_filter {W ptr}.
Arguments bytes_written {W ptr} _.
Arguments options {W ptr} _.
Arguments open {W ptr} _.
Arguments write {W ptr} _.
Arguments close {W ptr} _.
Arguments data {W ptr} _.
Arguments name {W ptr} _.
Arguments code {W ptr} _.
Arguments state {W ptr} _.
Arguments error {W ptr} _.
Arguments compression_name {W ptr} _.
Arguments skip_file_dev {W ptr} _.
Arguments skip_file_ino {W ptr} _.
Arguments client_opener {W ptr} _.
Arguments client_writer {W ptr} _.
Arguments client_closer {W ptr} _.
Arguments filters {W ptr} _.
Arguments format_name {W ptr} _.
Arguments format_init {W ptr} _.
Arguments format_options {W ptr} _.
Arguments format_finish_entry {W ptr} _.
Arguments format_write_header {W ptr} _.
Arguments format_finish {W ptr} _.
Arguments handle {W ptr} _.
Arguments world {W ptr} _.
Arguments trace {W ptr} _.
Arguments set_state {W ptr} s a.
Arguments set_error_field {W ptr} e a.
Arguments set_skip_file {W ptr} d i a.
Arguments set_client {W ptr} o w c a.
Arguments set_filters {W ptr} fs a.
Arguments set_bytes_written {W ptr} n f.
Arguments pure {W ptr A} x _.
Arguments bind {W ptr A B} c k _.
Arguments stop {W ptr A} f _.
Arguments get_archive {W ptr} _.
Arguments update {W ptr} g _.
Arguments invoke_log {W ptr} ev h.
Arguments invoke {W ptr} ev h.
Arguments __archive_check_magic {W ptr} states function _.
Arguments archive_clear_error {W ptr} _.
Arguments archive_set_error {W ptr} number message _.
Arguments modify_filter {W ptr} n g _.
Arguments get_filter {W ptr} n _.
Arguments __archive_write_allocate_filter {W ptr} _.
Arguments archive_write_client_open {W ptr} f _.
Arguments archive_write_client_write {W ptr} fuel f buff length.
Arguments drains {W ptr} writer d _ _ _ _ _.
Arguments drain_done {W ptr} writer d buff w.
Arguments drain_error {W ptr} writer d buff length w _ _.
Arguments drain_stall {W ptr} writer d buff length w _ _.
Arguments drain_more {W ptr} writer d buff length w r w' _ _.
Arguments archive_write_client_close {W ptr} f _.
Arguments call_write {W ptr} fuel n f buff length.
Arguments __archive_write_filter {W ptr} fuel n buff length _.
Arguments __archive_write_open_filter {W ptr} n _.
Arguments __archive_write_close_filter {W ptr} n _.
Arguments __archive_write_output {W ptr} fuel buff length _.
Arguments advance {W ptr} s len _.
Arguments format_options_loop {W ptr} __archive_parse_options fuel s ret.
Arguments archive_write_set_format_options {W ptr} __archive_parse_options s _.
Arguments filter_options_loop {W ptr} __archive_parse_options fuel n h s ret.
Arguments filters_options_loop {W ptr} __archive_parse_options fs n len s ret.
Arguments archive_write_set_compressor_options {W ptr} __archive_parse_options s _.
Arguments archive_write_set_options {W ptr} __archive_parse_options s _.
Arguments archive_write_set_skip_file {W ptr} d i _.
Arguments archive_write_set_compression_none {W ptr} compression_none _.
Arguments archive_write_open {W ptr} compression_none client_data opener writer closer _.
Arguments _archive_write_close {W ptr} _.
Arguments _archive_write_finish_entry {W ptr} _.
Arguments archive_write_finish_entry {W ptr} _.
Arguments is_skip_file {W ptr} a entry.
Arguments _archive_write_header {W ptr} entry _.
Arguments with_handle {W ptr} g m.
Arguments cleared {W ptr} m.
Arguments called {W ptr} ev w m.
Arguments moved {W ptr} s m.
Arguments client_filter {W ptr} client_data.
Arguments opened_chain {W ptr} compression_none fs client_data.
Arguments ready_to_open {W ptr} compression_none client_data opener writer closer m.
Arguments legal_for_header {W ptr} m.
Arguments error_only {W ptr} a a'.
Arguments filter_last {W ptr} a.
Arguments filter_walk {W ptr} n f.
Arguments filter_lookup {W ptr} a n.
Arguments _archive_filter_code {W ptr} a n.
Arguments _archive_filter_name {W ptr} a n.
Arguments _archive_filter_bytes {W ptr} a n.
Arguments answers {W} h toks w.
Arguments first_handler {W ptr} n fs.
Arguments phase {W} h w.
Arguments phase_calls {W} h ev.
Arguments close_hook {W ptr} a f.
Arguments close_event {W ptr} n f.
Arguments pending_finish_entry {W ptr} a.
Arguments do_open {W ptr} client_data opener writer closer.
Arguments do_set_skip_file {W ptr} d i.
Arguments do_write_header {W ptr} entry.
Arguments do_finish_entry {W ptr}.
Arguments do_close {W ptr}.
Arguments perform {W ptr} compression_none o _.
Arguments perform_all {W ptr} compression_none os _.
Arguments output_all {W ptr} fuel blocks _.

(** ** A test double

    The world is a script: the list of the values the hooks will return,
    in the order of the calls.  A hook takes the next value off the
    script; past the end of the script every hook returns [0]. *)
Module Double.

Definition scripted : hook (list Z) :=
  fun w => match w with
           | [] => (0, [])
           | r :: w' => (r, w')
           end.

Definition filter (h : option (fn (hook (list Z))))
  : archive_write_filter (list Z) unit :=
  {| bytes_written := 0; options := None; open := h;
     write := Some (external (fun _ _ => scripted));
     close := h; data := None; name := Some "double"%string; code := 0 |}.

(** A handle with a backend bound to scripted hooks. *)
Definition archive (st : Z) (fs : list (archive_write_filter (list Z) unit))
  : archive_write (list Z) unit :=
  {| state := st; error := None; compression_name := "none";
     skip_file_dev := 0; skip_file_ino := 0;
     client_opener := None; client_writer := None; client_closer := None;
     filters := fs; format_name := "double";
     format_init := Some scripted;
     format_options := None;
     format_finish_entry := Some scripted;
     format_write_header := Some (fun _ => scripted);
     format_finish := Some scripted |}.

Definition start (a : archive_write (list Z) unit) (script : list Z)
  : machine (list Z) unit :=
  {| handle := a; world := script; trace := [] |}.

(** A filter with a scripted options handler. *)
Definition tunable : archive_write_filter (list Z) unit :=
  {| bytes_written := 0; options := Some (fun _ _ => scripted);
     open := None; write := Some (external (fun _ _ => scripted));
     close := None; data := None; name := Some "tunable"%string; code := 0 |}.

(** A tokenizer that reads the whole string as one key without value. *)
Definition one_key (s fn : string) (ks vs : Z) : Z * string * string :=
  (Z.of_nat (String.length s), s, EmptyString).

(** A client writer that answers from the script. *)
Definition script_writer : option unit -> write_hook (list Z) :=
  fun _ _ _ => scripted.

(** A client writer that accepts at most three bytes per call. *)
Definition chunk_writer : option unit -> write_hook (list Z) :=
  fun _ _ length w => (Z.min length 3, w).

(** A client writer over a sink that keeps what it is given: it accepts
    at most three bytes per call and appends them to the world. *)
Definition sink_writer : option unit -> write_hook (list Z) :=
  fun _ buff length w =>
    (Z.min length 3,
     w ++ map (fun b => Z.of_N (Byte.to_N b))
            (firstn (Z.to_nat (Z.min length 3)) buff)).

(** The handle [a] once opened on the client writer [writer]. *)
Definition with_writer (writer : option unit -> write_hook (list Z))
    (a : archive_write (list Z) unit) : archive_write (list Z) unit :=
  set_client None (Some writer) None a.

(** The same entry throughout. *)
Definition entry : archive_entry :=
  {| archive_entry_dev := 1; archive_entry_ino64 := 2 |}.

End Double.

(** More doubles, for the properties of the calls the handle's life is
    made of. *)
Module Fixture.

(** The machine a call left, [m0] if the call did not return. *)
Definition after {A : Type} (o : outcome (list Z) unit A)
    (m0 : machine (list Z) unit) : machine (list Z) unit :=
  match o with
  | Returned _ m => m
  | Stopped _ => m0
  end.

(** A handle in state NEW whose backend has a scripted options
    handler. *)
Definition tunable_archive
    (fs : list (archive_write_filter (list Z) unit))
  : archive_write (list Z) unit :=
  {| state := ARCHIVE_STATE_NEW; error := None; compression_name := "none";
     skip_file_dev := 0; skip_file_ino := 0;
     client_opener := None; client_writer := None; client_closer := None;
     filters := fs; format_name := "double";
     format_init := None;
     format_options := Some (fun _ _ => Double.scripted);
     format_finish_entry := Some Double.scripted;
     format_write_header := Some (fun _ => Double.scripted);
     format_finish := None |}.

(** A handle in state NEW with no backend bound at all. *)
Definition bare_archive : archive_write (list Z) unit :=
  {| state := ARCHIVE_STATE_NEW; error := None; compression_name := "none";
     skip_file_dev := 0; skip_file_ino := 0;
     client_opener := None; client_writer := None; client_closer := None;
     filters := []; format_name := "none";
     format_init := None; format_options := None;
     format_finish_entry := None; format_write_header := None;
     format_finish := None |}.

(** A tokenizer for which every character is a key of its own. *)
Definition char_keys (s fn : string) (ks vs : Z) : Z * string * string :=
  match s with
  | EmptyString => (0, EmptyString, EmptyString)
  | String c _ => (1, String c EmptyString, EmptyString)
  end.

End Fixture.

(** * Properties *)

Section Properties.

Variable W : Type.
Variable ptr : Type.

Implicit Types (m : machine W ptr) (a : archive_write W ptr)
  (f : archive_write_filter W ptr) (entry : archive_entry).

Lemma check_magic_ok states function m :
  has_bits (state (handle m)) states = true ->
  __archive_check_magic states function m = Returned tt m.
Proof.
  intros H. unfold __archive_check_magic, bind, get_archive.
  destruct (states =? ARCHIVE_STATE_ANY); [reflexivity|].
  rewrite H. reflexivity.
Qed.

Lemma check_magic_stops states function m :
  states <> ARCHIVE_STATE_ANY ->
  has_bits (state (handle m)) states = false ->
  __archive_check_magic states function m = Stopped (InvalidState function).
Proof.
  intros Hany H. unfold __archive_check_magic, bind, get_archive.
  destruct (Z.eqb_spec states ARCHIVE_STATE_ANY); [contradiction|].
  rewrite H. reflexivity.
Qed.

Lemma invoke_some ev (h : hook W) m :
  invoke ev (Some h) m =
  Returned (fst (h (world m))) (called ev (snd (h (world m))) m).
Proof.
  unfold invoke, invoke_log, called. destruct (h (world m)); reflexivity.
Qed.

(** *** Finishing an entry *)

Lemma finish_entry_header m :
  state (handle m) = ARCHIVE_STATE_HEADER ->
  _archive_write_finish_entry m =
  Returned ARCHIVE_OK (moved ARCHIVE_STATE_HEADER m).
Proof.
  intros H. unfold _archive_write_finish_entry, bind.
  rewrite check_magic_ok by (rewrite H; reflexivity).
  unfold get_archive. rewrite H. reflexivity.
Qed.

Lemma finish_entry_data m (h : hook W) :
  state (handle m) = ARCHIVE_STATE_DATA ->
  format_finish_entry (handle m) = Some h ->
  _archive_write_finish_entry m =
  Returned (fst (h (world m)))
    (moved ARCHIVE_STATE_HEADER
       (called call_format_finish_entry (snd (h (world m))) m)).
Proof.
  intros H Hh. unfold _archive_write_finish_entry, bind.
  rewrite check_magic_ok by (rewrite H; reflexivity).
  unfold get_archive. rewrite H, Hh. cbn [has_bits].
  change (has_bits ARCHIVE_STATE_DATA ARCHIVE_STATE_DATA) with true.
  cbv iota. rewrite invoke_some. reflexivity.
Qed.

(** C9.  [finish_entry] in state HEADER returns OK and calls nothing;
    in state DATA it calls the backend's finish-entry hook once and
    returns the hook's status; either way the handle is in state HEADER
    when it returns, whatever status the hook gave. *)
Theorem finish_entry_leaves_header m :
  (state (handle m) = ARCHIVE_STATE_HEADER ->
   exists m',
     _archive_write_finish_entry m = Returned ARCHIVE_OK m' /\
     trace m' = trace m /\ world m' = world m /\
     state (handle m') = ARCHIVE_STATE_HEADER) /\
  (forall h : hook W,
   state (handle m) = ARCHIVE_STATE_DATA ->
   format_finish_entry (handle m) = Some h ->
   exists m',
     _archive_write_finish_entry m = Returned (fst (h (world m))) m' /\
     trace m' = trace m ++ [call_format_finish_entry] /\
     world m' = snd (h (world m)) /\
     state (handle m') = ARCHIVE_STATE_HEADER).
Proof.
  split.
  - intros H. eexists. split; [apply finish_entry_header; exact H|].
    repeat split.
  - intros h H Hh. eexists. split; [apply finish_entry_data; eassumption|].
    repeat split.
Qed.

Lemma finish_entry_inv m ret m1 :
  state (handle m) = ARCHIVE_STATE_HEADER \/
  state (handle m) = ARCHIVE_STATE_DATA ->
  _archive_write_finish_entry m = Returned ret m1 ->
  handle m1 = set_state ARCHIVE_STATE_HEADER (handle m) /\
  ((state (handle m) = ARCHIVE_STATE_HEADER /\ ret = ARCHIVE_OK /\
    world m1 = world m /\ trace m1 = trace m) \/
   (state (handle m) = ARCHIVE_STATE_DATA /\
    exists h : hook W,
      format_finish_entry (handle m) = Some h /\
      ret = fst (h (world m)) /\ world m1 = snd (h (world m)) /\
      trace m1 = trace m ++ [call_format_finish_entry])).
Proof.
  intros [H | H] Hrun.
  - rewrite (finish_entry_header m H) in Hrun. inversion Hrun; subst.
    split; [reflexivity|]. left. repeat split; assumption.
  - destruct (format_finish_entry (handle m)) as [h|] eqn:Hh.
    + rewrite (finish_entry_data m h H Hh) in Hrun. inversion Hrun; subst.
      split; [reflexivity|]. right. split; [assumption|].
      exists h. repeat split.
    + exfalso. revert Hrun. unfold _archive_write_finish_entry, bind.
      rewrite check_magic_ok by (rewrite H; reflexivity).
      unfold get_archive. rewrite H, Hh. discriminate.
Qed.

(** *** Writing a header *)

(** The machine once [archive_set_error] has run. *)
Lemma set_error_run number message m :
  archive_set_error number message m =
  Returned tt (with_handle (set_error_field (Some (number, message))) m).
Proof. reflexivity. Qed.

(** [_archive_write_header] from the point where the implicit
    finish-entry has returned. *)
Lemma write_header_after_finish m entry ret m1 :
  has_bits (state (handle m))
    (Z.lor ARCHIVE_STATE_DATA ARCHIVE_STATE_HEADER) = true ->
  archive_write_finish_entry (cleared m) = Returned ret m1 ->
  _archive_write_header entry m =
  if ret =? ARCHIVE_FATAL then
    Returned ARCHIVE_FATAL (moved ARCHIVE_STATE_FATAL m1)
  else if (ret <? ARCHIVE_OK) && negb (ret =? ARCHIVE_WARN) then
    Returned ret m1
  else if is_skip_file (handle m1) entry then
    Returned ARCHIVE_FAILED
      (with_handle
         (set_error_field (Some (0, "Can't add archive to itself"%string)))
         m1)
  else
    match format_write_header (handle m1) with
    | None => Stopped NullPointer
    | Some h =>
        let r2 := fst (h entry (world m1)) in
        let m2 := called (call_format_write_header entry)
                    (snd (h entry (world m1))) m1 in
        if r2 =? ARCHIVE_FATAL
        then Returned ARCHIVE_FATAL (moved ARCHIVE_STATE_FATAL m2)
        else Returned (if r2 <? ret then r2 else ret)
               (moved ARCHIVE_STATE_DATA m2)
    end.
Proof.
  intros Hst Hfin. unfold _archive_write_header, bind.
  rewrite check_magic_ok by exact Hst.
  change (archive_clear_error m) with (Returned (W:=W) (ptr:=ptr) tt (cleared m)).
  cbv iota beta. rewrite Hfin.
  destruct (ret =? ARCHIVE_FATAL); [reflexivity|].
  destruct ((ret <? ARCHIVE_OK) && negb (ret =? ARCHIVE_WARN));
    [reflexivity|].
  unfold get_archive.
  destruct (is_skip_file (handle m1) entry); [reflexivity|].
  destruct (format_write_header (handle m1)) as [h|]; [|reflexivity].
  cbn [option_map]. rewrite invoke_some. cbv zeta.
  destruct (fst (h entry (world m1)) =? ARCHIVE_FATAL); reflexivity.
Qed.

Lemma legal_for_header_bits m :
  legal_for_header m ->
  has_bits (state (handle m))
    (Z.lor ARCHIVE_STATE_DATA ARCHIVE_STATE_HEADER) = true.
Proof. intros [H | H]; rewrite H; reflexivity. Qed.

(** What the implicit finish-entry of [_archive_write_header] leaves
    behind: the handle in state HEADER with its error cleared, and at
    most one recorded call, to the finish-entry hook. *)
Lemma implicit_finish_inv m ret m1 :
  legal_for_header m ->
  archive_write_finish_entry (cleared m) = Returned ret m1 ->
  handle m1 =
    set_state ARCHIVE_STATE_HEADER (set_error_field None (handle m)) /\
  (trace m1 = trace m \/ trace m1 = trace m ++ [call_format_finish_entry]).
Proof.
  intros Hlegal Hfin.
  destruct (finish_entry_inv (cleared m) ret m1 Hlegal Hfin) as [Hh Hcases].
  split; [exact Hh|].
  destruct Hcases as [(_ & _ & _ & Ht) | (_ & h & _ & _ & _ & Ht)];
    [left | right]; exact Ht.
Qed.

Lemma skip_file_after_finish m m1 entry :
  handle m1 =
    set_state ARCHIVE_STATE_HEADER (set_error_field None (handle m)) ->
  is_skip_file (handle m1) entry = is_skip_file (handle m) entry.
Proof. intros ->. reflexivity. Qed.

(** C1, as amended.  Devices and inodes are compared as the 64-bit
    values the C code compares.  Once the implicit finish-entry has let
    the call go on (it returned OK or Warn), an entry whose device and
    inode both equal a skip-identity with nonzero device and nonzero
    inode makes [write_header] return Failed, and the backend's
    write-header hook is not called; an entry whose inode differs from
    the configured one passes the check: the hook is called. *)
Theorem write_header_skip_file m entry ret m1 :
  legal_for_header m ->
  archive_write_finish_entry (cleared m) = Returned ret m1 ->
  ret = ARCHIVE_WARN \/ ARCHIVE_OK <= ret ->
  (to_int64 (skip_file_dev (handle m)) <> 0 ->
   to_int64 (skip_file_ino (handle m)) <> 0 ->
   to_int64 (archive_entry_dev entry) = to_int64 (skip_file_dev (handle m)) ->
   to_int64 (archive_entry_ino64 entry) =
     to_int64 (skip_file_ino (handle m)) ->
   exists m' evs,
     _archive_write_header entry m = Returned ARCHIVE_FAILED m' /\
     trace m' = trace m ++ evs /\
     (forall e, ~ In (call_format_write_header e) evs) /\
     world m' = world m1) /\
  (to_int64 (archive_entry_ino64 entry) <>
     to_int64 (skip_file_ino (handle m)) ->
   forall h, format_write_header (handle m) = Some h ->
   exists r m',
     _archive_write_header entry m = Returned r m' /\
     trace m' = trace m1 ++ [call_format_write_header entry] /\
     world m' = snd (h entry (world m1))).
Proof.
  intros Hlegal Hfin Hret.
  pose proof (write_header_after_finish m entry ret m1
                (legal_for_header_bits m Hlegal) Hfin) as Hrun.
  destruct (implicit_finish_inv m ret m1 Hlegal Hfin) as [Hh Ht].
  assert (Hnf : (ret =? ARCHIVE_FATAL) = false)
    by (apply Z.eqb_neq; unfold ARCHIVE_FATAL, ARCHIVE_WARN, ARCHIVE_OK in *;
        lia).
  assert (Hne : (ret <? ARCHIVE_OK) && negb (ret =? ARCHIVE_WARN) = false).
  { destruct Hret as [-> | Hret]; [reflexivity|].
    apply andb_false_iff. left. apply Z.ltb_ge. exact Hret. }
  rewrite Hnf, Hne, (skip_file_after_finish m m1 entry Hh) in Hrun.
  split.
  - intros Hd Hi Hed Hei.
    assert (Hskip : is_skip_file (handle m) entry = true).
    { unfold is_skip_file. rewrite Hed, Hei, !Z.eqb_refl.
      apply Z.eqb_neq in Hd, Hi. rewrite Hd, Hi. reflexivity. }
    rewrite Hskip in Hrun.
    eexists. exists (skipn (List.length (trace m)) (trace m1)).
    split; [exact Hrun|]. cbn [with_handle trace world].
    destruct Ht as [Ht | Ht]; rewrite Ht.
    + rewrite skipn_all, app_nil_r. repeat split. intros e [].
    + rewrite skipn_app, skipn_all, Nat.sub_diag. cbn [skipn app].
      repeat split. intros e [He | []]. discriminate He.
  - intros Hi h Hwh.
    assert (Hskip : is_skip_file (handle m) entry = false).
    { unfold is_skip_file. apply Z.eqb_neq in Hi. rewrite Hi.
      apply andb_false_r. }
    rewrite Hskip, Hh in Hrun. cbn [set_state set_error_field
      format_write_header] in Hrun. rewrite Hwh in Hrun. cbv zeta in Hrun.
    destruct (fst (h entry (world m1)) =? ARCHIVE_FATAL);
      do 2 eexists; (split; [exact Hrun|]); split; reflexivity.
Qed.

(** C4, as amended.  When [write_header], called in state HEADER or
    DATA, returns a status other than Fatal, the handle is in state DATA
    if the backend's write-header hook was called, and in state HEADER
    if [write_header] returned before calling it: because the entry
    matched the skip-identity (status Failed), or because the implicit
    finish-entry returned a failure other than Warn (that status is
    returned). *)
Theorem write_header_state m entry r m' :
  legal_for_header m ->
  _archive_write_header entry m = Returned r m' ->
  r <> ARCHIVE_FATAL ->
  exists evs,
    trace m' = trace m ++ evs /\
    ((In (call_format_write_header entry) evs /\
      state (handle m') = ARCHIVE_STATE_DATA) \/
     ((forall e, ~ In (call_format_write_header e) evs) /\
      state (handle m') = ARCHIVE_STATE_HEADER /\
      ((r = ARCHIVE_FAILED /\ is_skip_file (handle m) entry = true) \/
       (r < ARCHIVE_OK /\ r <> ARCHIVE_WARN /\
        evs = [call_format_finish_entry])))).
Proof.
  intros Hlegal Hrun Hr.
  destruct (archive_write_finish_entry (cleared m)) as [ret m1|flt] eqn:Hfin.
  2:{ exfalso. revert Hrun. unfold _archive_write_header, bind.
      rewrite check_magic_ok by (apply legal_for_header_bits; exact Hlegal).
      change (archive_clear_error m)
        with (Returned (W:=W) (ptr:=ptr) tt (cleared m)).
      cbv iota beta. rewrite Hfin. discriminate. }
  rewrite (write_header_after_finish m entry ret m1
             (legal_for_header_bits m Hlegal) Hfin) in Hrun.
  destruct (finish_entry_inv (cleared m) ret m1 Hlegal Hfin) as [Hh Hcases].
  assert (Ht : exists evs0, trace m1 = trace m ++ evs0 /\
            (forall e, ~ In (call_format_write_header e) evs0) /\
            (ret < ARCHIVE_OK -> evs0 = [call_format_finish_entry])).
  { destruct Hcases as [(_ & Hok & _ & Ht) | (_ & h & _ & _ & _ & Ht)].
    - exists []. rewrite app_nil_r. split; [exact Ht|].
      split; [intros e []|]. subst ret. unfold ARCHIVE_OK. lia.
    - exists [call_format_finish_entry]. split; [exact Ht|].
      split; [|reflexivity]. intros e [He | []]. discriminate He. }
  destruct Ht as (evs0 & Ht & Hno & Hev).
  destruct (ret =? ARCHIVE_FATAL) eqn:Hfatal.
  { inversion Hrun; subst. contradiction. }
  destruct ((ret <? ARCHIVE_OK) && negb (ret =? ARCHIVE_WARN)) eqn:Hearly.
  { inversion Hrun; subst r m'. exists evs0. split; [exact Ht|]. right.
    apply andb_true_iff in Hearly. destruct Hearly as [Hlt Hw].
    apply Z.ltb_lt in Hlt. apply negb_true_iff, Z.eqb_neq in Hw.
    rewrite Hh. repeat split; auto. }
  rewrite (skip_file_after_finish m m1 entry Hh) in Hrun.
  destruct (is_skip_file (handle m) entry) eqn:Hskip.
  { inversion Hrun; subst r m'. exists evs0. cbn [with_handle trace handle].
    split; [exact Ht|]. right. rewrite Hh. repeat split; auto. }
  destruct (format_write_header (handle m1)) as [h|]; [|discriminate].
  cbv zeta in Hrun.
  destruct (fst (h entry (world m1)) =? ARCHIVE_FATAL).
  { inversion Hrun; subst. contradiction. }
  inversion Hrun; subst r m'.
  exists (evs0 ++ [call_format_write_header entry]).
  cbn [moved with_handle called trace handle]. rewrite Ht, app_assoc.
  split; [reflexivity|]. left. split; [|reflexivity].
  apply in_or_app. right. left. reflexivity.
Qed.

(** [write_header] returns whenever the backend is bound. *)
Lemma write_header_returns m entry (fe : hook W)
    (wh : archive_entry -> hook W) :
  legal_for_header m ->
  format_finish_entry (handle m) = Some fe ->
  format_write_header (handle m) = Some wh ->
  exists r m', _archive_write_header entry m = Returned r m'.
Proof.
  intros Hlegal Hfe Hwh.
  assert (Hfin : exists ret m1,
            archive_write_finish_entry (cleared m) = Returned ret m1).
  { destruct Hlegal as [H | H].
    - do 2 eexists. apply finish_entry_header. exact H.
    - do 2 eexists. apply (finish_entry_data (cleared m) fe); assumption. }
  destruct Hfin as (ret & m1 & Hfin).
  assert (Hlegal' : legal_for_header m) by exact Hlegal.
  destruct (implicit_finish_inv m ret m1 Hlegal' Hfin) as [Hh _].
  rewrite (write_header_after_finish m entry ret m1
             (legal_for_header_bits m Hlegal) Hfin).
  rewrite Hh. cbn [set_state set_error_field format_write_header].
  rewrite Hwh. cbv zeta.
  repeat match goal with |- context [if ?b then _ else _] => destruct b end;
    do 2 eexists; reflexivity.
Qed.

(** C6.  When the implicit finish-entry returns [ret] and the backend's
    write-header hook is then called and returns [r2], [write_header]
    returns the lower, that is the more severe, of the two; so a Warn
    from the implicit finish-entry followed by an OK from the hook gives
    Warn. *)
Theorem write_header_aggregates m entry ret m1 h :
  legal_for_header m ->
  archive_write_finish_entry (cleared m) = Returned ret m1 ->
  ret = ARCHIVE_WARN \/ ARCHIVE_OK <= ret ->
  is_skip_file (handle m) entry = false ->
  format_write_header (handle m) = Some h ->
  exists m',
    _archive_write_header entry m =
      Returned (Z.min ret (fst (h entry (world m1)))) m' /\
    trace m' = trace m1 ++ [call_format_write_header entry] /\
    (ret = ARCHIVE_WARN -> fst (h entry (world m1)) = ARCHIVE_OK ->
     _archive_write_header entry m = Returned ARCHIVE_WARN m').
Proof.
  intros Hlegal Hfin Hret Hskip Hwh.
  pose proof (write_header_after_finish m entry ret m1
                (legal_for_header_bits m Hlegal) Hfin) as Hrun.
  destruct (implicit_finish_inv m ret m1 Hlegal Hfin) as [Hh _].
  assert (Hnf : (ret =? ARCHIVE_FATAL) = false)
    by (apply Z.eqb_neq; unfold ARCHIVE_FATAL, ARCHIVE_WARN, ARCHIVE_OK in *;
        lia).
  assert (Hne : (ret <? ARCHIVE_OK) && negb (ret =? ARCHIVE_WARN) = false).
  { destruct Hret as [-> | Hret]; [reflexivity|].
    apply andb_false_iff. left. apply Z.ltb_ge. exact Hret. }
  rewrite Hnf, Hne, (skip_file_after_finish m m1 entry Hh), Hskip in Hrun.
  rewrite Hh in Hrun. cbn [set_state set_error_field format_write_header]
    in Hrun. rewrite Hwh in Hrun. cbv zeta in Hrun.
  set (r2 := fst (h entry (world m1))) in *.
  destruct (Z.eqb_spec r2 ARCHIVE_FATAL) as [Hf | Hf].
  - eexists. split.
    + rewrite Hrun. f_equal. rewrite Hf.
      unfold ARCHIVE_FATAL, ARCHIVE_WARN, ARCHIVE_OK in *. lia.
    + split; [reflexivity|].
      intros _ Hok. rewrite Hok in Hf. discriminate Hf.
  - eexists. split.
    + rewrite Hrun. f_equal.
      destruct (Z.ltb_spec r2 ret); lia.
    + split; [reflexivity|].
      intros Hw Hok. rewrite Hrun, Hw, Hok. reflexivity.
Qed.

(** *** Closing *)

(** C5, as amended.  [close] on a handle in state NEW or CLOSED returns
    OK, calls no hook and leaves the handle as it was except that its
    current error is cleared; on a handle in state FATAL it returns
    Fatal and changes nothing at all. *)
Theorem close_idle m :
  (state (handle m) = ARCHIVE_STATE_NEW \/
   state (handle m) = ARCHIVE_STATE_CLOSED ->
   exists m',
     _archive_write_close m = Returned ARCHIVE_OK m' /\
     trace m' = trace m /\ world m' = world m /\
     handle m' = set_error_field None (handle m) /\
     state (handle m') = state (handle m)) /\
  (state (handle m) = ARCHIVE_STATE_FATAL ->
   _archive_write_close m = Returned ARCHIVE_FATAL m).
Proof.
  split.
  - intros H. exists (cleared m). split; [|repeat split].
    unfold _archive_write_close, bind, get_archive.
    destruct H as [H | H]; rewrite H; reflexivity.
  - intros H. unfold _archive_write_close, bind, get_archive.
    rewrite H. reflexivity.
Qed.

(** *** Opening *)

Variable compression_none : archive_write_filter W ptr.

Lemma bind_returned {A B} (c : M W ptr A) (k : A -> M W ptr B) m x m' :
  c m = Returned x m' -> bind c k m = k x m'.
Proof. intros H. unfold bind. rewrite H. reflexivity. Qed.

Lemma modify_at_end (fs : list (archive_write_filter W ptr)) x g :
  firstn (List.length fs) (fs ++ [x]) ++
  match nth_error (fs ++ [x]) (List.length fs) with
  | Some f => [g f]
  | None => []
  end ++ skipn (S (List.length fs)) (fs ++ [x]) = fs ++ [g x].
Proof.
  rewrite firstn_app, firstn_all, Nat.sub_diag, app_nil_r.
  rewrite nth_error_app2, Nat.sub_diag by apply Nat.le_refl.
  rewrite skipn_all2 by (rewrite length_app; cbn; lia).
  reflexivity.
Qed.

Lemma allocate_filter_run m :
  state (handle m) = ARCHIVE_STATE_NEW ->
  __archive_write_allocate_filter m =
  Returned (List.length (filters (handle m)))
    (with_handle (fun a => set_filters (filters a ++ [blank_filter]) a) m).
Proof.
  intros H. unfold __archive_write_allocate_filter, bind.
  rewrite check_magic_ok by (rewrite H; reflexivity). reflexivity.
Qed.

Lemma modify_last_filter (fs : list (archive_write_filter W ptr)) f0 g m :
  filters (handle m) = fs ++ [f0] ->
  modify_filter (List.length fs) g m =
  Returned tt (with_handle (set_filters (fs ++ [g f0])) m).
Proof.
  intros H. unfold modify_filter, update, with_handle. rewrite H.
  rewrite firstn_app, firstn_all, Nat.sub_diag, app_nil_r.
  rewrite nth_error_app2, Nat.sub_diag by apply Nat.le_refl.
  rewrite skipn_all2 by (rewrite length_app; cbn; lia).
  reflexivity.
Qed.

(** [archive_write_open] up to the opening of the head filter. *)
Lemma open_builds_chain (m : machine W ptr) client_data opener writer closer :
  state (handle m) = ARCHIVE_STATE_NEW ->
  archive_write_open compression_none client_data opener writer closer m =
  match __archive_write_open_filter 0
          (ready_to_open compression_none client_data opener writer closer m)
  with
  | Returned ret m2 =>
      match format_init (handle m2) with
      | Some init =>
          if ret =? ARCHIVE_OK
          then invoke call_format_init (Some init)
                 (moved ARCHIVE_STATE_HEADER m2)
          else Returned ret (moved ARCHIVE_STATE_HEADER m2)
      | None => Returned ret (moved ARCHIVE_STATE_HEADER m2)
      end
  | Stopped flt => Stopped flt
  end.
Proof.
  intros H. unfold archive_write_open.
  erewrite bind_returned by (apply check_magic_ok; rewrite H; reflexivity).
  erewrite bind_returned by (unfold archive_clear_error, update; reflexivity).
  erewrite bind_returned by (unfold get_archive; reflexivity).
  cbn [handle filters set_error_field].
  unfold ready_to_open, opened_chain.
  destruct (filters (handle m)) as [|f0 fs] eqn:Hfs.
  - erewrite bind_returned.
    2:{ unfold archive_write_set_compression_none.
        erewrite bind_returned by (apply allocate_filter_run; exact H).
        cbn [handle filters set_error_field]. rewrite Hfs.
        erewrite bind_returned
          by (apply (modify_last_filter [] blank_filter); cbn; rewrite Hfs;
              reflexivity).
        reflexivity. }
    erewrite bind_returned by (unfold update; reflexivity).
    erewrite bind_returned by (apply allocate_filter_run; exact H).
    erewrite bind_returned
      by (apply (modify_last_filter [compression_none] blank_filter);
          reflexivity).
    unfold bind at 1.
    match goal with
    | |- match ?x with _ => _ end = match ?y with _ => _ end =>
        replace x with y
    end.
    2:{ f_equal. unfold with_handle. cbn. rewrite Hfs. reflexivity. }
    match goal with
    | |- match ?y with _ => _ end = _ => destruct y as [ret m2|flt]
    end; [|reflexivity].
    erewrite bind_returned by (unfold update; reflexivity).
    erewrite bind_returned by (unfold get_archive; reflexivity).
    cbn [handle set_state format_init].
    destruct (format_init (handle m2)); [|reflexivity].
    destruct (ret =? ARCHIVE_OK); reflexivity.
  - erewrite bind_returned by reflexivity.
    erewrite bind_returned by (unfold update; reflexivity).
    erewrite bind_returned by (apply allocate_filter_run; exact H).
    cbn [handle filters set_client set_error_field cleared with_handle].
    rewrite Hfs.
    erewrite bind_returned
      by (apply (modify_last_filter (f0 :: fs) blank_filter);
          cbn; rewrite ?Hfs; reflexivity).
    unfold bind at 1.
    match goal with
    | |- match ?x with _ => _ end = match ?y with _ => _ end =>
        replace x with y
    end.
    2:{ f_equal. unfold with_handle. cbn. rewrite Hfs. reflexivity. }
    match goal with
    | |- match ?y with _ => _ end = _ => destruct y as [ret m2|flt]
    end; [|reflexivity].
    erewrite bind_returned by (unfold update; reflexivity).
    erewrite bind_returned by (unfold get_archive; reflexivity).
    cbn [handle set_state format_init].
    destruct (format_init (handle m2)); [|reflexivity].
    destruct (ret =? ARCHIVE_OK); reflexivity.
Qed.

Lemma get_filter_run n m f :
  nth_error (filters (handle m)) n = Some f ->
  get_filter n m = Returned f m.
Proof.
  intros Hf. unfold get_filter, bind, get_archive. rewrite Hf. reflexivity.
Qed.

(** Opening a node of the chain always returns; it leaves the handle
    alone and records at most the call of the node's own open hook. *)
Lemma open_filter_returns n m f :
  nth_error (filters (handle m)) n = Some f ->
  exists ret m2 evs,
    __archive_write_open_filter n m = Returned ret m2 /\
    handle m2 = handle m /\
    trace m2 = trace m ++ evs /\ ~ In call_format_init evs.
Proof.
  intros Hf. unfold __archive_write_open_filter.
  rewrite (bind_returned _ _ _ _ _ (get_filter_run n m f Hf)).
  destruct (open f) as [[|h]|].
  - unfold archive_write_client_open, bind, get_archive.
    destruct (client_opener (handle m)) as [o|].
    + rewrite invoke_some. do 2 eexists. exists [call_client_opener].
      repeat split. intros [He | []]. discriminate He.
    + do 2 eexists. exists []. rewrite app_nil_r. repeat split.
      intros [].
  - rewrite invoke_some. do 2 eexists. exists [call_filter_open n].
    repeat split. intros [He | []]. discriminate He.
  - do 2 eexists. exists []. rewrite app_nil_r. repeat split. intros [].
Qed.

Lemma opened_chain_head fs client_data :
  exists f rest, opened_chain compression_none fs client_data = f :: rest.
Proof.
  unfold opened_chain. destruct fs as [|f0 fs]; cbn; do 2 eexists;
    reflexivity.
Qed.

(** [archive_write_open] from beginning to end. *)
Lemma open_run m client_data opener writer closer :
  state (handle m) = ARCHIVE_STATE_NEW ->
  exists ret m2 evs r m',
    __archive_write_open_filter 0
      (ready_to_open compression_none client_data opener writer closer m)
      = Returned ret m2 /\
    handle m2 =
      handle (ready_to_open compression_none client_data opener writer
                closer m) /\
    trace m2 = trace m ++ evs /\ ~ In call_format_init evs /\
    archive_write_open compression_none client_data opener writer closer m
      = Returned r m' /\
    handle m' = set_state ARCHIVE_STATE_HEADER (handle m2) /\
    ((ret = ARCHIVE_OK /\ format_init (handle m) <> None /\
      trace m' = trace m2 ++ [call_format_init]) \/
     ((ret <> ARCHIVE_OK \/ format_init (handle m) = None) /\
      trace m' = trace m2 /\ r = ret)).
Proof.
  intros H.
  destruct (opened_chain_head (filters (handle m)) client_data)
    as (f & rest & Hchain).
  destruct (open_filter_returns 0
              (ready_to_open compression_none client_data opener writer
                 closer m) f)
    as (ret & m2 & evs & Hopen & Hh & Ht & Hno).
  { cbn [ready_to_open with_handle handle set_filters filters].
    rewrite Hchain. reflexivity. }
  pose proof (open_builds_chain m client_data opener writer closer H)
    as Hrun.
  rewrite Hopen in Hrun.
  assert (Hinit : format_init (handle m2) = format_init (handle m))
    by (rewrite Hh; reflexivity).
  rewrite Hinit in Hrun.
  exists ret, m2, evs.
  destruct (format_init (handle m)) as [init|] eqn:Hfi.
  - destruct (Z.eqb_spec ret ARCHIVE_OK) as [Hok | Hok].
    + rewrite invoke_some in Hrun. do 2 eexists.
      split; [exact Hopen|]. split; [exact Hh|]. split; [exact Ht|].
      split; [exact Hno|]. split; [exact Hrun|].
      split; [reflexivity|].
      left. repeat split; [exact Hok | discriminate].
    + do 2 eexists.
      split; [exact Hopen|]. split; [exact Hh|]. split; [exact Ht|].
      split; [exact Hno|]. split; [exact Hrun|].
      split; [reflexivity|].
      right. repeat split. left. exact Hok.
  - do 2 eexists.
    split; [exact Hopen|]. split; [exact Hh|]. split; [exact Ht|].
    split; [exact Hno|]. split; [exact Hrun|].
    split; [reflexivity|].
    right. repeat split. right. reflexivity.
Qed.

(** C10.  Called in state NEW, [open] returns with the handle in state
    HEADER whatever the head filter's open hook and the backend's init
    hook reported, and the init hook is called only if opening the head
    filter returned OK (and then exactly once, when it is bound). *)
Theorem open_leaves_header m client_data opener writer closer :
  state (handle m) = ARCHIVE_STATE_NEW ->
  exists ret m2 r m',
    __archive_write_open_filter 0
      (ready_to_open compression_none client_data opener writer closer m)
      = Returned ret m2 /\
    archive_write_open compression_none client_data opener writer closer m
      = Returned r m' /\
    state (handle m') = ARCHIVE_STATE_HEADER /\
    (exists evs, trace m2 = trace m ++ evs /\ ~ In call_format_init evs) /\
    ((ret = ARCHIVE_OK /\ format_init (handle m) <> None /\
      trace m' = trace m2 ++ [call_format_init]) \/
     ((ret <> ARCHIVE_OK \/ format_init (handle m) = None) /\
      trace m' = trace m2 /\ r = ret)).
Proof.
  intros H.
  destruct (open_run m client_data opener writer closer H)
    as (ret & m2 & evs & r & m' & Hopen & _ & Ht & Hno & Hrun & Hh & Hinit).
  exists ret, m2, r, m'. split; [exact Hopen|]. split; [exact Hrun|].
  split; [rewrite Hh; reflexivity|].
  split; [exists evs; split; assumption | exact Hinit].
Qed.

(** C3, as amended.  After [open], called in state NEW, the chain is the
    configured chain followed by the client sink adapter's node as its
    terminal node, [N + 1] nodes for [N >= 1] configured filters; with
    no filter configured it holds exactly two nodes, the pass-through
    filter added by [open] and then the client sink adapter. *)
Theorem open_chain m client_data opener writer closer :
  state (handle m) = ARCHIVE_STATE_NEW ->
  exists r m',
    archive_write_open compression_none client_data opener writer closer m
      = Returned r m' /\
    last (filters (handle m')) blank_filter = client_filter client_data /\
    (filters (handle m) = [] ->
     filters (handle m') =
       [compression_none; client_filter client_data]) /\
    (filters (handle m) <> [] ->
     filters (handle m') =
       filters (handle m) ++ [client_filter client_data] /\
     List.length (filters (handle m')) =
       S (List.length (filters (handle m)))).
Proof.
  intros H.
  destruct (open_run m client_data opener writer closer H)
    as (ret & m2 & evs & r & m' & _ & Hh2 & _ & _ & Hrun & Hh & _).
  assert (Hfs : filters (handle m') =
                opened_chain compression_none (filters (handle m))
                  client_data)
    by (rewrite Hh, Hh2; reflexivity).
  exists r, m'. split; [exact Hrun|]. rewrite Hfs. unfold opened_chain.
  split; [apply last_last|]. split.
  - intros ->. reflexivity.
  - intros Hne. destruct (filters (handle m)) as [|f0 fs];
      [contradiction|]. split; [reflexivity|].
    rewrite length_app. cbn. lia.
Qed.

(** *** The filter chain's write path *)

Lemma invoke_log_inv ev (h : option (hook W)) m r m1 :
  invoke_log ev h m = Returned r m1 ->
  exists hk, h = Some hk /\ r = fst (hk (world m)) /\
    m1 = {| handle := handle m; world := snd (hk (world m));
            trace := trace m ++ [ev r] |}.
Proof.
  destruct h as [hk|]; [|discriminate]. unfold invoke_log.
  destruct (hk (world m)) as [r' w'] eqn:Hk. intros Hrun.
  inversion Hrun; subst. exists hk. rewrite Hk. repeat split.
Qed.

Lemma client_write_handle fuel : forall f buff length m r m1,
  archive_write_client_write fuel f buff length m = Returned r m1 ->
  handle m1 = handle m.
Proof.
  induction fuel as [|fuel IH]; intros f buff length m r m1; cbn [archive_write_client_write].
  - destruct (0 <? length); [discriminate|]. intros Hrun.
    inversion Hrun; reflexivity.
  - destruct (0 <? length); [|intros Hrun; inversion Hrun; reflexivity].
    unfold bind at 1, get_archive at 1. unfold bind at 1.
    destruct (invoke_log _ _ m) as [written m0|] eqn:Hcall; [|discriminate].
    destruct (invoke_log_inv _ _ _ _ _ Hcall) as (hk & _ & _ & ->).
    destruct (written <? 0); [intros Hrun; inversion Hrun; reflexivity|].
    destruct (written =? 0); [intros Hrun; inversion Hrun; reflexivity|].
    intros Hrun. apply IH in Hrun. exact Hrun.
Qed.

Lemma call_write_handle fuel n f buff length m r m1 :
  call_write fuel n f buff length m = Returned r m1 ->
  handle m1 = handle m.
Proof.
  unfold call_write. destruct (write f) as [[|h]|]; [| |discriminate].
  - apply client_write_handle.
  - rewrite invoke_some. intros Hrun. inversion Hrun; reflexivity.
Qed.

(** A filter implemented elsewhere: its write hook is called once and
    its status comes back unchanged. *)
Lemma call_write_external fuel n f buff length m (h : write_hook W) :
  write f = Some (external h) ->
  call_write fuel n f buff length m =
  Returned (fst (h buff length (world m)))
    (called (call_filter_write n length) (snd (h buff length (world m))) m).
Proof. intros Hw. unfold call_write. rewrite Hw. apply invoke_some. Qed.

Lemma nth_error_replaced (l : list (archive_write_filter W ptr)) n f x :
  nth_error l n = Some f ->
  nth_error (firstn n l ++ [x] ++ skipn (S n) l) n = Some x.
Proof.
  intros Hf.
  assert (Hlen : (n < List.length l)%nat)
    by (apply nth_error_Some; rewrite Hf; discriminate).
  rewrite nth_error_app2; rewrite length_firstn, Nat.min_l by lia;
    [|apply Nat.le_refl].
  rewrite Nat.sub_diag. reflexivity.
Qed.

Lemma to_int64_small x : - 2 ^ 63 <= x < 2 ^ 63 -> to_int64 x = x.
Proof. intros H. unfold to_int64. rewrite Z.mod_small; lia. Qed.

(** C8.  Writing [length] bytes to a node through
    [__archive_write_filter] adds [length] to that node's
    [bytes_written] (a 64-bit counter: exactly [length] as long as the
    counter does not overflow) whatever status the node's write hook
    returned, and that status is handed back unchanged. *)
Theorem write_filter_counts fuel n buff length m f r m1 :
  nth_error (filters (handle m)) n = Some f ->
  call_write fuel n f buff length m = Returned r m1 ->
  exists m' f',
    __archive_write_filter fuel n buff length m = Returned r m' /\
    world m' = world m1 /\ trace m' = trace m1 /\
    nth_error (filters (handle m')) n = Some f' /\
    bytes_written f' = to_int64 (bytes_written f + length) /\
    (- 2 ^ 63 <= bytes_written f + length < 2 ^ 63 ->
     bytes_written f' = bytes_written f + length).
Proof.
  intros Hf Hcall. pose proof (call_write_handle _ _ _ _ _ _ _ _ Hcall) as Hh.
  unfold __archive_write_filter.
  rewrite (bind_returned _ _ _ _ _ (get_filter_run n m f Hf)).
  rewrite (bind_returned _ _ _ _ _ Hcall).
  unfold bind, modify_filter, update, pure.
  rewrite Hh, Hf. do 2 eexists. split; [reflexivity|].
  cbn [handle world trace set_filters filters].
  split; [reflexivity|]. split; [reflexivity|].
  split; [apply (nth_error_replaced _ _ f); exact Hf|].
  cbn [set_bytes_written bytes_written].
  split; [reflexivity|]. apply to_int64_small.
Qed.

(** *** The client sink adapter *)

Lemma to_int_small x : - 2 ^ 31 <= x < 2 ^ 31 -> to_int x = x.
Proof. intros H. unfold to_int. rewrite Z.mod_small; lia. Qed.

Lemma to_size_t_small x : 0 <= x < 2 ^ 64 -> to_size_t x = x.
Proof. intros H. unfold to_size_t. apply Z.mod_small. exact H. Qed.

(** One round of the loop of [archive_write_client_write]. *)
Lemma client_write_round fuel f buff length m
    (writer : option ptr -> write_hook W) :
  client_writer (handle m) = Some writer ->
  0 < length ->
  let written := fst (writer (data f) buff length (world m)) in
  let m1 := called (call_client_writer length written)
              (snd (writer (data f) buff length (world m))) m in
  archive_write_client_write (S fuel) f buff length m =
  if written <? 0 then Returned (to_int written) m1
  else if written =? 0 then Returned ARCHIVE_FATAL m1
  else archive_write_client_write fuel f
         (skipn (Z.to_nat written) buff) (to_size_t (length - written)) m1.
Proof.
  intros Hw Hlen. cbv zeta. cbn [archive_write_client_write].
  apply Z.ltb_lt in Hlen. rewrite Hlen.
  unfold bind at 1, get_archive at 1. rewrite Hw. cbn [option_map].
  unfold bind, invoke_log, called.
  destruct (writer (data f) buff length (world m)) as [written w'].
  cbn [fst snd].
  destruct (written <? 0); [reflexivity|].
  destruct (written =? 0); reflexivity.
Qed.

Lemma flushes_outcome length evs r :
  flushes length evs r ->
  (r = ARCHIVE_OK /\ accepted evs = length) \/
  (r < ARCHIVE_OK /\ accepted evs < length).
Proof.
  induction 1 as [|length written Hl Hw|length Hl
                  |length written evs r Hw Hrest IH].
  - left. split; reflexivity.
  - right. cbn [accepted].
    destruct (Z.ltb_spec 0 written); unfold ARCHIVE_OK; lia.
  - right. cbn. unfold ARCHIVE_FATAL, ARCHIVE_OK. lia.
  - cbn [accepted]. destruct (Z.ltb_spec 0 written); [|lia].
    destruct IH as [[-> Ha] | [Hr Ha]]; [left | right]; split;
      try reflexivity; try assumption; lia.
Qed.

(** C7, as amended.  With a writer that never claims more bytes than it
    was offered and whose error codes fit an [int], the client sink
    adapter's write hook calls the writer on what remains until nothing
    remains and then returns OK; when the writer reports a negative
    count it returns that very count at once, and when the writer
    reports zero with bytes remaining it returns Fatal.  Every call is
    made on the client data of the node, with the part of the buffer
    that the calls before it did not accept and the number of bytes
    still to write, in the world the call before it left ([drains]).
    It returns OK only if the accepted counts add up to the whole
    length; the handle is left as it was. *)
Theorem client_write_flushes fuel : forall f buff length m
    (writer : option ptr -> write_hook W),
  client_writer (handle m) = Some writer ->
  0 <= length < 2 ^ 64 ->
  (forall d b len w, 0 < len -> - 2 ^ 31 <= fst (writer d b len w) <= len) ->
  (Z.to_nat length <= fuel)%nat ->
  exists r m' evs,
    archive_write_client_write fuel f buff length m = Returned r m' /\
    handle m' = handle m /\
    trace m' = trace m ++ evs /\
    flushes length evs r /\
    drains writer (data f) buff length (world m) r (world m') /\
    ((r = ARCHIVE_OK /\ accepted evs = length) \/
     (r < ARCHIVE_OK /\ accepted evs < length)).
Proof.
  induction fuel as [|fuel IH]; intros f buff length m writer Hw Hlen Hwr Hfuel.
  - assert (length = 0) by lia. subst length. exists ARCHIVE_OK, m, [].
    rewrite app_nil_r.
    repeat split; [constructor | apply drain_done |].
    left. split; reflexivity.
  - destruct (Z.ltb_spec 0 length) as [Hpos | Hzero].
    2:{ assert (length = 0) by lia. subst length. exists ARCHIVE_OK, m, [].
        rewrite app_nil_r.
        repeat split; [constructor | apply drain_done |].
        left. split; reflexivity. }
    rewrite (client_write_round fuel f buff length m writer Hw Hpos).
    cbv zeta. specialize (Hwr (data f) buff length (world m) Hpos) as Hrange.
    set (written := fst (writer (data f) buff length (world m))) in *.
    set (m1 := called (call_client_writer length written)
                 (snd (writer (data f) buff length (world m))) m).
    destruct (Z.ltb_spec written 0) as [Hneg | Hnn].
    + exists written, m1, [call_client_writer length written].
      rewrite to_int_small by lia.
      assert (Hfl : flushes length [call_client_writer length written]
                      written) by (constructor; assumption).
      split; [reflexivity|]. split; [reflexivity|]. split; [reflexivity|].
      split; [exact Hfl|].
      split; [apply drain_error; assumption|].
      apply flushes_outcome. exact Hfl.
    + destruct (Z.eqb_spec written 0) as [Hz | Hnz].
      * exists ARCHIVE_FATAL, m1, [call_client_writer length written].
        assert (Hfl : flushes length [call_client_writer length 0]
                        ARCHIVE_FATAL) by (constructor; assumption).
        split; [reflexivity|]. split; [reflexivity|]. split; [reflexivity|].
        rewrite Hz.
        split; [exact Hfl|].
        split; [apply drain_stall; assumption|].
        apply flushes_outcome. exact Hfl.
      * rewrite to_size_t_small by lia.
        destruct (IH f (skipn (Z.to_nat written) buff) (length - written)
                    m1 writer)
          as (r & m' & evs & Hrun & Hh & Ht & Hfl & Hdr & _);
          [exact Hw | lia | exact Hwr | lia |].
        exists r, m', (call_client_writer length written :: evs).
        assert (Hfl' : flushes length
                         (call_client_writer length written :: evs) r)
          by (constructor; [lia | exact Hfl]).
        split; [exact Hrun|]. split; [exact Hh|].
        split; [rewrite Ht; subst m1; cbn [called trace];
                rewrite <- app_assoc; reflexivity|].
        split; [exact Hfl'|].
        split; [apply drain_more; [fold written; lia | exact Hdr]|].
        apply flushes_outcome. exact Hfl'.
Qed.

(** *** Option dispatch *)

Variable parse : string -> string -> Z -> Z -> Z * string * string.

Lemma error_only_refl a : error_only a a.
Proof. reflexivity. Qed.

Lemma error_only_trans a1 a2 a3 :
  error_only a1 a2 -> error_only a2 a3 -> error_only a1 a3.
Proof. unfold error_only. intros H12 H23. rewrite H23. exact H12. Qed.

Lemma error_only_set e a : error_only a (set_error_field e a).
Proof. reflexivity. Qed.

Lemma error_only_state a a' : error_only a a' -> state a' = state a.
Proof.
  intros H. change (state (set_error_field None a') =
                    state (set_error_field None a)). rewrite H. reflexivity.
Qed.

Lemma error_only_format_options a a' :
  error_only a a' -> format_options a' = format_options a.
Proof.
  intros H. change (format_options (set_error_field None a') =
                    format_options (set_error_field None a)).
  rewrite H. reflexivity.
Qed.

Lemma error_only_filters a a' : error_only a a' -> filters a' = filters a.
Proof.
  intros H. change (filters (set_error_field None a') =
                    filters (set_error_field None a)). rewrite H. reflexivity.
Qed.

Lemma substring_length_le s : forall n k,
  (String.length (substring n k s) <= k)%nat.
Proof.
  induction s as [|c s IH]; intros n k.
  - destruct n, k; cbn; lia.
  - destruct n as [|n]; destruct k as [|k]; cbn; try lia.
    + specialize (IH 0%nat k). lia.
    + apply IH.
    + apply IH.
Qed.

Lemma advance_run s len m :
  0 < len -> len <= Z.of_nat (String.length s) ->
  exists s', advance s len m = Returned s' m /\
             (String.length s' < String.length s)%nat.
Proof.
  intros Hpos Hle. unfold advance.
  destruct (Nat.leb_spec (Z.to_nat len) (String.length s)) as [_ | Hgt];
    [|lia].
  eexists. split; [reflexivity|].
  pose proof (substring_length_le s (Z.to_nat len)
                (String.length s - Z.to_nat len)). lia.
Qed.

(** The status a round keeps after a handler's answer [r]. *)
Lemma keep_status_run r key ret m :
  exists ret' m',
    (if r <? ARCHIVE_OK
     then bind (archive_set_error ARCHIVE_ERRNO_MISC (unsupported_option key))
            (fun _ => pure ARCHIVE_WARN)
     else pure ret) m = Returned ret' m' /\
    error_only (handle m) (handle m') /\
    (ret' = ret \/ ret' = ARCHIVE_WARN).
Proof.
  destruct (r <? ARCHIVE_OK).
  - do 2 eexists. split; [reflexivity|]. split; [reflexivity|]. now right.
  - do 2 eexists. split; [reflexivity|]. split; [reflexivity|]. now left.
Qed.

Lemma format_options_loop_returns fuel : forall s ret m h,
  consumes_within parse ->
  format_options (handle m) = Some h ->
  (String.length s < fuel)%nat ->
  exists x m',
    format_options_loop parse fuel s ret m = Returned x m' /\
    error_only (handle m) (handle m') /\
    match x with
    | inl r => r = ARCHIVE_FATAL
    | inr (len, ret') => len <= 0 /\ (ret' = ret \/ ret' = ARCHIVE_WARN)
    end.
Proof.
  induction fuel as [|fuel IH]; intros s ret m h Hsane Hfo Hfuel; [lia|].
  cbn [format_options_loop]. unfold bind at 1, get_archive at 1.
  pose proof (Hsane s (format_name (handle m)) 64 64) as Hle.
  destruct (parse s (format_name (handle m)) 64 64) as [[len key] val].
  cbn [fst] in Hle.
  destruct (Z.ltb_spec 0 len) as [Hpos | Hnpos].
  2:{ do 2 eexists. split; [reflexivity|]. split; [reflexivity|].
      split; [exact Hnpos | now left]. }
  rewrite Hfo. cbn [option_map].
  rewrite (bind_returned _ _ _ _ _ (invoke_some _ _ m)).
  set (r := fst (h key (val_or_null val) (world m))).
  set (m1 := called _ _ m).
  destruct (Z.eqb_spec r ARCHIVE_FATAL) as [Hf | Hnf].
  { do 2 eexists. split; [reflexivity|]. split; [reflexivity|]. exact Hf. }
  destruct (keep_status_run r key ret m1) as (ret' & m2 & Hkeep & He2 & Hret').
  rewrite (bind_returned _ _ _ _ _ Hkeep).
  destruct (advance_run s len m2 Hpos Hle) as (s' & Hadv & Hshort).
  rewrite (bind_returned _ _ _ _ _ Hadv).
  destruct (IH s' ret' m2 h Hsane) as (x & m' & Hrun & He & Hx);
    [rewrite (error_only_format_options _ _ He2); exact Hfo | lia |].
  exists x, m'. split; [exact Hrun|].
  split; [exact (error_only_trans _ _ _ He2 He)|].
  destruct x as [r0 | [len0 ret0]]; [exact Hx|].
  destruct Hx as [Hl Hr]. split; [exact Hl|].
  destruct Hr as [-> | ->]; [exact Hret' | now right].
Qed.

Lemma filter_options_loop_returns fuel : forall n h s ret m,
  consumes_within parse ->
  (String.length s < fuel)%nat ->
  exists x m',
    filter_options_loop parse fuel n h s ret m = Returned x m' /\
    error_only (handle m) (handle m') /\
    match x with
    | inl r => r = ARCHIVE_FATAL
    | inr (len, _, ret') => len <= 0 /\ (ret' = ret \/ ret' = ARCHIVE_WARN)
    end.
Proof.
  induction fuel as [|fuel IH]; intros n h s ret m Hsane Hfuel; [lia|].
  cbn [filter_options_loop]. unfold bind at 1, get_archive at 1.
  pose proof (Hsane s (compression_name (handle m)) 64 64) as Hle.
  destruct (parse s (compression_name (handle m)) 64 64) as [[len key] val].
  cbn [fst] in Hle.
  destruct (Z.ltb_spec 0 len) as [Hpos | Hnpos].
  2:{ do 2 eexists. split; [reflexivity|]. split; [reflexivity|].
      split; [exact Hnpos | now left]. }
  rewrite (bind_returned _ _ _ _ _ (invoke_some _ _ m)).
  set (r := fst (h key (val_or_null val) (world m))).
  set (m1 := called _ _ m).
  destruct (Z.eqb_spec r ARCHIVE_FATAL) as [Hf | Hnf].
  { do 2 eexists. split; [reflexivity|]. split; [reflexivity|]. exact Hf. }
  destruct (keep_status_run r key ret m1) as (ret' & m2 & Hkeep & He2 & Hret').
  rewrite (bind_returned _ _ _ _ _ Hkeep).
  destruct (advance_run s len m2 Hpos Hle) as (s' & Hadv & Hshort).
  rewrite (bind_returned _ _ _ _ _ Hadv).
  destruct (IH n h s' ret' m2 Hsane) as (x & m' & Hrun & He & Hx); [lia|].
  exists x, m'. split; [exact Hrun|].
  split; [exact (error_only_trans _ _ _ He2 He)|].
  destruct x as [r0 | [[len0 s0] ret0]]; [exact Hx|].
  destruct Hx as [Hl Hr]. split; [exact Hl|].
  destruct Hr as [-> | ->]; [exact Hret' | now right].
Qed.

Lemma filters_options_loop_returns fs : forall n len s ret m,
  consumes_within parse ->
  len <= 0 ->
  exists x m',
    filters_options_loop parse fs n len s ret m = Returned x m' /\
    error_only (handle m) (handle m') /\
    match x with
    | inl r => r = ARCHIVE_FATAL
    | inr (len', ret') => len' <= 0 /\ (ret' = ret \/ ret' = ARCHIVE_WARN)
    end.
Proof.
  induction fs as [|filter fs IH]; intros n len s ret m Hsane Hlen;
    cbn [filters_options_loop].
  - do 2 eexists. split; [reflexivity|]. split; [reflexivity|].
    split; [exact Hlen | now left].
  - destruct (options filter) as [h|]; [|apply IH; assumption].
    destruct (filter_options_loop_returns (S (String.length s)) n h s ret m
                Hsane) as (x & m1 & Hrun & He1 & Hx); [lia|].
    rewrite (bind_returned _ _ _ _ _ Hrun).
    destruct x as [r | [[len' s'] ret']].
    + do 2 eexists. split; [reflexivity|]. split; [exact He1|]. exact Hx.
    + destruct Hx as [Hl Hr].
      destruct (IH (S n) len' s' ret' m1 Hsane Hl)
        as (x & m' & Hrun' & He & Hx).
      exists x, m'. split; [exact Hrun'|].
      split; [exact (error_only_trans _ _ _ He1 He)|].
      destruct x as [r0 | [len0 ret0]]; [exact Hx|].
      destruct Hx as [Hl0 Hr0]. split; [exact Hl0|].
      destruct Hr0 as [-> | ->]; [exact Hr | now right].
Qed.

Lemma set_format_options_returns s m :
  consumes_within parse ->
  state (handle m) = ARCHIVE_STATE_NEW ->
  exists r1 m1,
    archive_write_set_format_options parse s m = Returned r1 m1 /\
    error_only (handle m) (handle m1) /\ option_status r1.
Proof.
  intros Hsane Hst. unfold archive_write_set_format_options.
  erewrite bind_returned
    by (apply check_magic_ok; rewrite Hst; reflexivity).
  erewrite bind_returned by (unfold archive_clear_error, update; reflexivity).
  change {| handle := set_error_field None (handle m);
            world := world m; trace := trace m |} with (cleared m).
  destruct s as [[|c s]|].
  - do 2 eexists. split; [reflexivity|]. split; [reflexivity|]. now left.
  - erewrite bind_returned by (unfold get_archive; reflexivity).
    destruct (format_options (handle (cleared m))) as [h|] eqn:Hfo.
    2:{ do 2 eexists. split; [reflexivity|]. split; [reflexivity|].
        now left. }
    destruct (format_options_loop_returns
                (S (String.length (String c s))) (String c s) ARCHIVE_OK
                (cleared m) h Hsane Hfo) as (x & m1 & Hrun & He & Hx);
      [lia|].
    rewrite (bind_returned _ _ _ _ _ Hrun).
    destruct x as [r | [len ret]].
    + exists r, m1. split; [reflexivity|]. split; [exact He|].
      right. right. exact Hx.
    + destruct Hx as [_ Hret]. destruct (len <? 0).
      * do 2 eexists. split; [reflexivity|].
        split; [exact (error_only_trans _ _ _ He (error_only_set _ _))|].
        right. now left.
      * exists ret, m1. split; [reflexivity|]. split; [exact He|].
        destruct Hret as [-> | ->]; [now left | right; now left].
  - do 2 eexists. split; [reflexivity|]. split; [reflexivity|]. now left.
Qed.

Lemma set_compressor_options_returns s m :
  consumes_within parse ->
  state (handle m) = ARCHIVE_STATE_NEW ->
  exists r2 m2,
    archive_write_set_compressor_options parse s m = Returned r2 m2 /\
    error_only (handle m) (handle m2) /\ option_status r2.
Proof.
  intros Hsane Hst. unfold archive_write_set_compressor_options.
  erewrite bind_returned
    by (apply check_magic_ok; rewrite Hst; reflexivity).
  erewrite bind_returned by (unfold archive_clear_error, update; reflexivity).
  change {| handle := set_error_field None (handle m);
            world := world m; trace := trace m |} with (cleared m).
  destruct s as [[|c s]|].
  - do 2 eexists. split; [reflexivity|]. split; [reflexivity|]. now left.
  - erewrite bind_returned by (unfold get_archive; reflexivity).
    destruct (filters_options_loop_returns (filters (handle (cleared m)))
                0 0 (String c s) ARCHIVE_OK (cleared m) Hsane (Z.le_refl 0))
      as (x & m1 & Hrun & He & Hx).
    rewrite (bind_returned _ _ _ _ _ Hrun).
    destruct x as [r | [len ret]].
    + exists r, m1. split; [reflexivity|]. split; [exact He|].
      right. right. exact Hx.
    + destruct Hx as [_ Hret]. destruct (len <? 0).
      * do 2 eexists. split; [reflexivity|].
        split; [exact (error_only_trans _ _ _ He (error_only_set _ _))|].
        right. now left.
      * exists ret, m1. split; [reflexivity|]. split; [exact He|].
        destruct Hret as [-> | ->]; [now left | right; now left].
  - do 2 eexists. split; [reflexivity|]. split; [reflexivity|]. now left.
Qed.

(** C2, as amended.  On a handle in state NEW, with a tokenizer that
    stays inside the string, both halves of the combined operation
    return OK, Warn or Fatal.  The combined operation returns Fatal as
    soon as a half does (the filter half is not run after a Fatal from
    the format half); otherwise it returns Warn only if both halves
    returned Warn, and OK if at most one of them did. *)
Theorem set_options_status s m :
  consumes_within parse ->
  state (handle m) = ARCHIVE_STATE_NEW ->
  exists r1 m1,
    archive_write_set_format_options parse s m = Returned r1 m1 /\
    option_status r1 /\
    ((r1 = ARCHIVE_FATAL /\
      archive_write_set_options parse s m = Returned ARCHIVE_FATAL m1) \/
     (r1 <> ARCHIVE_FATAL /\
      exists r2 m2,
        archive_write_set_compressor_options parse s m1 = Returned r2 m2 /\
        option_status r2 /\
        ((r2 = ARCHIVE_FATAL /\
          archive_write_set_options parse s m = Returned ARCHIVE_FATAL m2) \/
         (r2 <> ARCHIVE_FATAL /\
          archive_write_set_options parse s m =
            Returned (combined_status r1 r2) m2 /\
          (combined_status r1 r2 = ARCHIVE_WARN <->
           r1 = ARCHIVE_WARN /\ r2 = ARCHIVE_WARN) /\
          (combined_status r1 r2 = ARCHIVE_OK <->
           r1 = ARCHIVE_OK \/ r2 = ARCHIVE_OK))))).
Proof.
  intros Hsane Hst.
  destruct (set_format_options_returns s m Hsane Hst)
    as (r1 & m1 & Hrun1 & He1 & Hr1).
  exists r1, m1. split; [exact Hrun1|]. split; [exact Hr1|].
  unfold archive_write_set_options.
  rewrite (bind_returned _ _ _ _ _ Hrun1).
  destruct Hr1 as [-> | [-> | ->]]; [right | right | left; split; reflexivity].
  - split; [discriminate|].
    destruct (set_compressor_options_returns s m1 Hsane)
      as (r2 & m2 & Hrun2 & _ & Hr2);
      [rewrite (error_only_state _ _ He1); exact Hst|].
    exists r2, m2. split; [exact Hrun2|]. split; [exact Hr2|].
    change (ARCHIVE_OK <? ARCHIVE_WARN) with false. cbv iota.
    rewrite (bind_returned _ _ _ _ _ Hrun2).
    destruct Hr2 as [-> | [-> | ->]];
      [right | right | left; split; reflexivity];
      (split; [discriminate|]); (split; [reflexivity|]);
      cbv; intuition congruence.
  - split; [discriminate|].
    destruct (set_compressor_options_returns s m1 Hsane)
      as (r2 & m2 & Hrun2 & _ & Hr2);
      [rewrite (error_only_state _ _ He1); exact Hst|].
    exists r2, m2. split; [exact Hrun2|]. split; [exact Hr2|].
    change (ARCHIVE_WARN <? ARCHIVE_WARN) with false. cbv iota.
    rewrite (bind_returned _ _ _ _ _ Hrun2).
    destruct Hr2 as [-> | [-> | ->]];
      [right | right | left; split; reflexivity];
      (split; [discriminate|]); (split; [reflexivity|]);
      cbv; intuition congruence.
Qed.

End Properties.

(** * Concrete runs *)

(** ** Finishing an entry and writing a header *)

Lemma finish_entry_leaves_header_witness :
  exists m',
    _archive_write_finish_entry
      (Double.start (Double.archive ARCHIVE_STATE_DATA []) [ARCHIVE_WARN])
      = Returned ARCHIVE_WARN m' /\
    trace m' = [call_format_finish_entry] /\
    world m' = [] /\
    state (handle m') = ARCHIVE_STATE_HEADER.
Proof.
  exact (proj2 (finish_entry_leaves_header (list Z) unit
                  (Double.start (Double.archive ARCHIVE_STATE_DATA [])
                     [ARCHIVE_WARN]))
           Double.scripted eq_refl eq_refl).
Defined.

Lemma write_header_skip_file_witness :
  let m := Double.start
             (set_skip_file 1 2 (Double.archive ARCHIVE_STATE_HEADER []))
             [] in
  exists m' evs,
    _archive_write_header Double.entry m = Returned ARCHIVE_FAILED m' /\
    trace m' = trace m ++ evs /\
    (forall e, ~ In (call_format_write_header e) evs) /\
    world m' = [].
Proof.
  intros m.
  refine (proj1 (write_header_skip_file (list Z) unit m Double.entry
                   ARCHIVE_OK (moved ARCHIVE_STATE_HEADER (cleared m))
                   _ _ _) _ _ _ _).
  - left. reflexivity.
  - reflexivity.
  - right. apply Z.le_refl.
  - discriminate.
  - discriminate.
  - reflexivity.
  - reflexivity.
Defined.

(** The skip-identity is kept and compared as 64-bit values: configured
    with the [ino_t] value [2^64 - 1], the handle rejects the entry
    whose [int64_t] inode is [-1], and the write-header hook is not
    called. *)
Example skip_file_inode_wraps :
  match archive_write_set_skip_file 1 (2 ^ 64 - 1)
          (Double.start (Double.archive ARCHIVE_STATE_HEADER []) [])
  with
  | Returned _ m =>
      match _archive_write_header
              {| archive_entry_dev := 1; archive_entry_ino64 := -1 |} m
      with
      | Returned r m' => r = ARCHIVE_FAILED /\ trace m' = []
      | Stopped _ => False
      end
  | Stopped _ => False
  end.
Proof. vm_compute. split; reflexivity. Qed.

(** C1 as stated fails: the skip-identity [(0, 2)] has a nonzero inode
    and the entry's device and inode equal it, yet [write_header] does
    not fail: the backend's write-header hook is called and its OK is
    returned. *)
Lemma skip_file_device_zero_not_rejected :
  let a := set_skip_file 0 2 (Double.archive ARCHIVE_STATE_HEADER []) in
  let entry := {| archive_entry_dev := 0; archive_entry_ino64 := 2 |} in
  skip_file_ino a <> 0 /\
  archive_entry_dev entry = skip_file_dev a /\
  archive_entry_ino64 entry = skip_file_ino a /\
  match _archive_write_header entry (Double.start a [ARCHIVE_OK]) with
  | Returned r m' =>
      r = ARCHIVE_OK /\ trace m' = [call_format_write_header entry]
  | Stopped _ => False
  end.
Proof.
  cbv zeta. split; [discriminate|]. repeat split.
Qed.

Lemma write_header_state_witness :
  let m := Double.start (Double.archive ARCHIVE_STATE_HEADER [])
             [ARCHIVE_WARN] in
  exists evs,
    [call_format_write_header Double.entry] = trace m ++ evs /\
    ((In (call_format_write_header Double.entry) evs /\
      ARCHIVE_STATE_DATA = ARCHIVE_STATE_DATA) \/
     ((forall e, ~ In (call_format_write_header e) evs) /\
      ARCHIVE_STATE_DATA = ARCHIVE_STATE_HEADER /\
      ((ARCHIVE_WARN = ARCHIVE_FAILED /\
        is_skip_file (handle m) Double.entry = true) \/
       (ARCHIVE_WARN < ARCHIVE_OK /\ ARCHIVE_WARN <> ARCHIVE_WARN /\
        evs = [call_format_finish_entry])))).
Proof.
  intros m.
  refine (write_header_state (list Z) unit m Double.entry ARCHIVE_WARN
            {| handle := set_state ARCHIVE_STATE_DATA
                           (set_state ARCHIVE_STATE_HEADER
                              (set_error_field None (handle m)));
               world := [];
               trace := [call_format_write_header Double.entry] |}
            _ _ _).
  - left. reflexivity.
  - reflexivity.
  - discriminate.
Defined.

(** C4 as stated fails: the implicit finish-entry returns Failed,
    [write_header] returns that non-fatal status at once, and the handle
    is in state HEADER, not DATA. *)
Lemma write_header_failed_finish_stays_header :
  match _archive_write_header Double.entry
          (Double.start (Double.archive ARCHIVE_STATE_DATA [])
             [ARCHIVE_FAILED])
  with
  | Returned r m' =>
      r = ARCHIVE_FAILED /\ r <> ARCHIVE_FATAL /\
      state (handle m') = ARCHIVE_STATE_HEADER /\
      state (handle m') <> ARCHIVE_STATE_DATA
  | Stopped _ => False
  end.
Proof. repeat split; discriminate. Qed.

Lemma write_header_aggregates_witness :
  let m := Double.start (Double.archive ARCHIVE_STATE_DATA [])
             [ARCHIVE_WARN; ARCHIVE_OK] in
  exists m',
    _archive_write_header Double.entry m = Returned ARCHIVE_WARN m' /\
    trace m' =
      [call_format_finish_entry; call_format_write_header Double.entry].
Proof.
  intros m.
  destruct (write_header_aggregates (list Z) unit m Double.entry
              ARCHIVE_WARN
              (moved ARCHIVE_STATE_HEADER
                 (called call_format_finish_entry [ARCHIVE_OK] (cleared m)))
              (fun _ => Double.scripted))
    as (m' & Hrun & Htrace & _).
  - right. reflexivity.
  - reflexivity.
  - left. reflexivity.
  - reflexivity.
  - reflexivity.
  - exists m'. split; [exact Hrun | exact Htrace].
Defined.

(** ** Closing and opening *)

Lemma close_idle_witness :
  let m := Double.start (Double.archive ARCHIVE_STATE_CLOSED []) [] in
  exists m',
    _archive_write_close m = Returned ARCHIVE_OK m' /\
    trace m' = trace m /\ world m' = world m /\
    handle m' = set_error_field None (handle m) /\
    state (handle m') = state (handle m).
Proof.
  intros m.
  exact (proj1 (close_idle (list Z) unit m) (or_intror eq_refl)).
Defined.

(** C5 as stated fails: closing a handle that is already CLOSED and
    still holds the error of an earlier failure returns OK, but not
    without effect: the handle's current error is gone. *)
Lemma close_on_closed_clears_error :
  let a := set_error_field (Some (ARCHIVE_ERRNO_MISC, "Write failed"%string))
             (Double.archive ARCHIVE_STATE_CLOSED []) in
  match _archive_write_close (Double.start a []) with
  | Returned r m' =>
      r = ARCHIVE_OK /\
      error a = Some (ARCHIVE_ERRNO_MISC, "Write failed"%string) /\
      error (handle m') = None /\
      handle m' <> a
  | Stopped _ => False
  end.
Proof.
  cbv zeta. repeat split. intros H.
  apply (f_equal (@error (list Z) unit)) in H. discriminate H.
Qed.

Lemma open_leaves_header_witness :
  let m := Double.start
             (Double.archive ARCHIVE_STATE_NEW
                [Double.filter (Some (external Double.scripted))])
             [ARCHIVE_FAILED] in
  exists ret m2 r m',
    __archive_write_open_filter 0
      (ready_to_open (Double.filter None) None None None None m)
      = Returned ret m2 /\
    archive_write_open (Double.filter None) None None None None m
      = Returned r m' /\
    state (handle m') = ARCHIVE_STATE_HEADER /\
    (exists evs, trace m2 = trace m ++ evs /\ ~ In call_format_init evs) /\
    ((ret = ARCHIVE_OK /\ format_init (handle m) <> None /\
      trace m' = trace m2 ++ [call_format_init]) \/
     ((ret <> ARCHIVE_OK \/ format_init (handle m) = None) /\
      trace m' = trace m2 /\ r = ret)).
Proof.
  intros m.
  exact (open_leaves_header (list Z) unit (Double.filter None) m
           None None None None eq_refl).
Defined.

Lemma open_chain_witness :
  let m := Double.start
             (Double.archive ARCHIVE_STATE_NEW
                [Double.filter None; Double.tunable]) [] in
  exists r m',
    archive_write_open (Double.filter None) None None None None m
      = Returned r m' /\
    last (filters (handle m')) blank_filter = client_filter None /\
    (filters (handle m) = [] ->
     filters (handle m') = [Double.filter None; client_filter None]) /\
    (filters (handle m) <> [] ->
     filters (handle m') = filters (handle m) ++ [client_filter None] /\
     List.length (filters (handle m')) =
       S (List.length (filters (handle m)))).
Proof.
  intros m.
  exact (open_chain (list Z) unit (Double.filter None) m
           None None None None eq_refl).
Defined.

(** C3 as stated fails: opened with no filter configured, the chain
    holds two nodes, the pass-through filter and then the client sink
    adapter, not one. *)
Lemma open_without_filters_builds_two_nodes :
  let m := Double.start (Double.archive ARCHIVE_STATE_NEW []) [] in
  filters (handle m) = [] /\
  match archive_write_open (Double.filter None) None None None None m with
  | Returned r m' =>
      r = ARCHIVE_OK /\
      filters (handle m') = [Double.filter None; client_filter None] /\
      List.length (filters (handle m')) = 2%nat /\
      List.length (filters (handle m')) <> 1%nat
  | Stopped _ => False
  end.
Proof.
  vm_compute. repeat split; discriminate.
Qed.

(** ** The write path *)

Lemma write_filter_counts_witness :
  let m := Double.start
             (Double.archive ARCHIVE_STATE_DATA
                [Double.filter None; client_filter None])
             [ARCHIVE_FAILED] in
  exists m' f',
    __archive_write_filter 0 0 [x00; x01; x02] 3 m
      = Returned ARCHIVE_FAILED m' /\
    world m' = [] /\ trace m' = [call_filter_write 0 3] /\
    nth_error (filters (handle m')) 0 = Some f' /\
    bytes_written f' = to_int64 (0 + 3) /\
    (- 2 ^ 63 <= 0 + 3 < 2 ^ 63 -> bytes_written f' = 0 + 3).
Proof.
  intros m.
  exact (write_filter_counts (list Z) unit 0 0 [x00; x01; x02] 3 m
           (Double.filter None) ARCHIVE_FAILED
           (called (call_filter_write 0 3) [] m) eq_refl eq_refl).
Defined.

Lemma chunk_writer_within : forall (d : option unit) (b : list byte)
    (len : Z) (w : list Z),
  0 < len -> - 2 ^ 31 <= fst (Double.chunk_writer d b len w) <= len.
Proof. intros d b len w Hlen. cbn [Double.chunk_writer fst]. lia. Qed.

Lemma sink_writer_within : forall (d : option unit) (b : list byte)
    (len : Z) (w : list Z),
  0 < len -> - 2 ^ 31 <= fst (Double.sink_writer d b len w) <= len.
Proof. intros d b len w Hlen. cbn [Double.sink_writer fst]. lia. Qed.

Lemma client_write_flushes_witness :
  let m := Double.start
             (Double.with_writer Double.sink_writer
                (Double.archive ARCHIVE_STATE_DATA [])) [] in
  exists r m' evs,
    archive_write_client_write 8 (client_filter None)
      [x00; x01; x02; x03; x04; x05; x06; x07] 8 m = Returned r m' /\
    handle m' = handle m /\
    trace m' = trace m ++ evs /\
    flushes 8 evs r /\
    drains Double.sink_writer None
      [x00; x01; x02; x03; x04; x05; x06; x07] 8 [] r (world m') /\
    ((r = ARCHIVE_OK /\ accepted evs = 8) \/
     (r < ARCHIVE_OK /\ accepted evs < 8)).
Proof.
  intros m.
  refine (client_write_flushes (list Z) unit 8 (client_filter None)
            [x00; x01; x02; x03; x04; x05; x06; x07] 8 m
            Double.sink_writer eq_refl _ sink_writer_within _).
  - split; [discriminate | reflexivity].
  - vm_compute. repeat constructor.
Defined.

(** The sink receives the bytes of the buffer in order, each of them
    once: three calls, on the whole buffer, on what is left after three
    bytes and on what is left after six. *)
Example client_write_fills_sink :
  archive_write_client_write 8 (client_filter None)
    [x00; x01; x02; x03; x04; x05; x06; x07] 8
    (Double.start
       (Double.with_writer Double.sink_writer
          (Double.archive ARCHIVE_STATE_DATA [])) [])
  = Returned ARCHIVE_OK
      {| handle := Double.with_writer Double.sink_writer
                     (Double.archive ARCHIVE_STATE_DATA []);
         world := [0; 1; 2; 3; 4; 5; 6; 7];
         trace := [call_client_writer 8 3; call_client_writer 5 3;
                   call_client_writer 2 2] |}.
Proof. vm_compute. reflexivity. Qed.

(** C7 as stated fails: the writer reports the negative count [-20];
    the adapter returns that count, which is Warn, not a fatal
    status. *)
Lemma client_write_returns_writers_count :
  match archive_write_client_write 1 (client_filter None) [x00; x01] 2
          (Double.start
             (Double.with_writer Double.script_writer
                (Double.archive ARCHIVE_STATE_DATA []))
             [ARCHIVE_WARN])
  with
  | Returned r m' =>
      trace m' = [call_client_writer 2 (-20)] /\
      r = ARCHIVE_WARN /\ r <> ARCHIVE_FATAL
  | Stopped _ => False
  end.
Proof.
  vm_compute. repeat split; discriminate.
Qed.

(** ** Option dispatch *)

Lemma one_key_within : consumes_within Double.one_key.
Proof. intros s fn ks vs. cbn. apply Z.le_refl. Qed.

Lemma set_options_status_witness :
  let m := Double.start
             (Double.archive ARCHIVE_STATE_NEW [Double.tunable])
             [ARCHIVE_OK] in
  let s := Some "level"%string in
  exists r1 m1,
    archive_write_set_format_options Double.one_key s m = Returned r1 m1 /\
    option_status r1 /\
    ((r1 = ARCHIVE_FATAL /\
      archive_write_set_options Double.one_key s m
        = Returned ARCHIVE_FATAL m1) \/
     (r1 <> ARCHIVE_FATAL /\
      exists r2 m2,
        archive_write_set_compressor_options Double.one_key s m1
          = Returned r2 m2 /\
        option_status r2 /\
        ((r2 = ARCHIVE_FATAL /\
          archive_write_set_options Double.one_key s m
            = Returned ARCHIVE_FATAL m2) \/
         (r2 <> ARCHIVE_FATAL /\
          archive_write_set_options Double.one_key s m =
            Returned (combined_status r1 r2) m2 /\
          (combined_status r1 r2 = ARCHIVE_WARN <->
           r1 = ARCHIVE_WARN /\ r2 = ARCHIVE_WARN) /\
          (combined_status r1 r2 = ARCHIVE_OK <->
           r1 = ARCHIVE_OK \/ r2 = ARCHIVE_OK))))).
Proof.
  intros m s.
  exact (set_options_status (list Z) unit Double.one_key s m
           one_key_within eq_refl).
Defined.

(** C2 as stated fails: the format backend has no options handler (its
    half returns OK), the filter's handler rejects the key (its half
    returns Warn), and the combined operation returns OK, not Warn. *)
Lemma set_options_hides_single_warning :
  let m := Double.start
             (Double.archive ARCHIVE_STATE_NEW [Double.tunable])
             [ARCHIVE_WARN] in
  let s := Some "level"%string in
  match archive_write_set_format_options Double.one_key s m with
  | Returned r1 m1 =>
      r1 = ARCHIVE_OK /\
      match archive_write_set_compressor_options Double.one_key s m1 with
      | Returned r2 _ => r2 = ARCHIVE_WARN
      | Stopped _ => False
      end
  | Stopped _ => False
  end /\
  match archive_write_set_options Double.one_key s m with
  | Returned r m' =>
      r = ARCHIVE_OK /\ r <> ARCHIVE_WARN /\
      trace m' = [call_filter_options 0 "level" None]
  | Stopped _ => False
  end.
Proof.
  vm_compute. repeat split; discriminate.
Qed.

(** * Further properties of the handle *)

Section Lifecycle.

Variable W : Type.
Variable ptr : Type.

Implicit Types (m : machine W ptr) (a : archive_write W ptr)
  (f : archive_write_filter W ptr) (entry : archive_entry).

Lemma header_run m entry ret m1 :
  legal_for_header m ->
  archive_write_finish_entry (cleared m) = Returned ret m1 ->
  handle m1 =
    set_state ARCHIVE_STATE_HEADER (set_error_field None (handle m)) /\
  _archive_write_header entry m =
  if ret =? ARCHIVE_FATAL then
    Returned ARCHIVE_FATAL (moved ARCHIVE_STATE_FATAL m1)
  else if (ret <? ARCHIVE_OK) && negb (ret =? ARCHIVE_WARN) then
    Returned ret m1
  else if is_skip_file (handle m) entry then
    Returned ARCHIVE_FAILED
      (with_handle
         (set_error_field (Some (0, "Can't add archive to itself"%string)))
         m1)
  else
    match format_write_header (handle m) with
    | None => Stopped NullPointer
    | Some h =>
        let r2 := fst (h entry (world m1)) in
        let m2 := called (call_format_write_header entry)
                    (snd (h entry (world m1))) m1 in
        if r2 =? ARCHIVE_FATAL
        then Returned ARCHIVE_FATAL (moved ARCHIVE_STATE_FATAL m2)
        else Returned (if r2 <? ret then r2 else ret)
               (moved ARCHIVE_STATE_DATA m2)
    end.
Proof.
  intros Hlegal Hfin.
  destruct (implicit_finish_inv W ptr m ret m1 Hlegal Hfin) as [Hh _].
  split; [exact Hh|].
  rewrite (write_header_after_finish W ptr m entry ret m1
             (legal_for_header_bits W ptr m Hlegal) Hfin).
  rewrite (skip_file_after_finish W ptr m m1 entry Hh).
  rewrite Hh. reflexivity.
Qed.

Lemma header_finish_runs m entry r m' :
  legal_for_header m ->
  _archive_write_header entry m = Returned r m' ->
  exists ret m1, archive_write_finish_entry (cleared m) = Returned ret m1.
Proof.
  intros Hlegal Hrun.
  destruct (archive_write_finish_entry (cleared m)) as [ret m1|flt] eqn:Hfin.
  - exists ret, m1. reflexivity.
  - exfalso. revert Hrun. unfold _archive_write_header, bind.
    rewrite check_magic_ok
      by (apply legal_for_header_bits; exact Hlegal).
    change (archive_clear_error m)
      with (Returned (W:=W) (ptr:=ptr) tt (cleared m)).
    cbv iota beta. rewrite Hfin. discriminate.
Qed.

(** X1.  Fatal and the state FATAL go together in [write_header],
    called in state HEADER or DATA.  A Fatal of the implicit
    finish-entry makes it return Fatal with the handle moved to FATAL,
    and the write-header hook is not called.  When the implicit
    finish-entry returned OK or Warn and the entry does not match the
    skip-identity, a Fatal of the write-header hook makes it return
    Fatal with the handle moved to FATAL.  Whenever it returns, it
    returns Fatal exactly when it leaves the handle in state FATAL, and
    a Fatal has one of these two origins. *)
Theorem write_header_fatal_iff m entry ret m1 :
  legal_for_header m ->
  archive_write_finish_entry (cleared m) = Returned ret m1 ->
  (ret = ARCHIVE_FATAL ->
   _archive_write_header entry m =
     Returned ARCHIVE_FATAL (moved ARCHIVE_STATE_FATAL m1) /\
   state (handle (moved ARCHIVE_STATE_FATAL m1)) = ARCHIVE_STATE_FATAL) /\
  (forall h,
   format_write_header (handle m) = Some h ->
   ret = ARCHIVE_WARN \/ ARCHIVE_OK <= ret ->
   is_skip_file (handle m) entry = false ->
   fst (h entry (world m1)) = ARCHIVE_FATAL ->
   let m2 := called (call_format_write_header entry)
               (snd (h entry (world m1))) m1 in
   _archive_write_header entry m =
     Returned ARCHIVE_FATAL (moved ARCHIVE_STATE_FATAL m2) /\
   state (handle (moved ARCHIVE_STATE_FATAL m2)) = ARCHIVE_STATE_FATAL) /\
  (forall r m',
   _archive_write_header entry m = Returned r m' ->
   (r = ARCHIVE_FATAL <-> state (handle m') = ARCHIVE_STATE_FATAL) /\
   (r = ARCHIVE_FATAL ->
    ret = ARCHIVE_FATAL \/
    exists h,
      format_write_header (handle m) = Some h /\
      (ret = ARCHIVE_WARN \/ ARCHIVE_OK <= ret) /\
      is_skip_file (handle m) entry = false /\
      fst (h entry (world m1)) = ARCHIVE_FATAL)).
Proof.
  intros Hlegal Hfin.
  destruct (header_run m entry ret m1 Hlegal Hfin) as [Hh Hstep].
  split; [|split].
  - intros ->. split; [|reflexivity]. rewrite Hstep. reflexivity.
  - intros h Hwh Hret Hskip Hfatal m2. split; [|reflexivity].
    assert (Hnf : (ret =? ARCHIVE_FATAL) = false)
      by (apply Z.eqb_neq;
          unfold ARCHIVE_FATAL, ARCHIVE_WARN, ARCHIVE_OK in *; lia).
    assert (Hne : (ret <? ARCHIVE_OK) && negb (ret =? ARCHIVE_WARN) = false).
    { destruct Hret as [-> | Hret]; [reflexivity|].
      apply andb_false_iff. left. apply Z.ltb_ge. exact Hret. }
    rewrite Hstep, Hnf, Hne, Hskip, Hwh. cbv zeta. rewrite Hfatal.
    reflexivity.
  - intros r m' Hrun. rewrite Hstep in Hrun. clear Hstep.
    destruct (Z.eqb_spec ret ARCHIVE_FATAL) as [Hf | Hf].
    { inversion Hrun; subst r m'. split; [split; reflexivity|].
      intros _. left. exact Hf. }
    destruct ((ret <? ARCHIVE_OK) && negb (ret =? ARCHIVE_WARN)) eqn:Hne.
    { inversion Hrun; subst r m'. rewrite Hh.
      split; [split; [contradiction | discriminate]|].
      intros; contradiction. }
    destruct (is_skip_file (handle m) entry) eqn:Hskip.
    { inversion Hrun; subst r m'. cbn [with_handle handle]. rewrite Hh.
      split; [split; discriminate | discriminate]. }
    destruct (format_write_header (handle m)) as [h|]; [|discriminate].
    cbv zeta in Hrun.
    destruct (Z.eqb_spec (fst (h entry (world m1))) ARCHIVE_FATAL)
      as [Hf2 | Hf2].
    { inversion Hrun; subst r m'. split; [split; reflexivity|].
      intros _. right. exists h. split; [reflexivity|].
      split; [|split; [reflexivity | exact Hf2]].
      apply andb_false_iff in Hne. destruct Hne as [Hlt | Hw].
      - right. apply Z.ltb_ge. exact Hlt.
      - left. apply negb_false_iff in Hw. apply Z.eqb_eq. exact Hw. }
    inversion Hrun; subst r m'.
    assert (Hr : (if fst (h entry (world m1)) <? ret
                  then fst (h entry (world m1)) else ret) <> ARCHIVE_FATAL)
      by (destruct (fst (h entry (world m1)) <? ret); assumption).
    split; [split; [intros; contradiction | discriminate]|].
    intros; contradiction.
Qed.

(** X2.  A skip-identity whose device or inode is zero switches the
    self-reference guard off: whatever the entry, once the implicit
    finish-entry has returned OK or Warn the backend's write-header hook
    is called, and Failed is returned only if the hook returns it. *)
Theorem skip_file_zero_disables_guard m entry ret m1 h :
  legal_for_header m ->
  archive_write_finish_entry (cleared m) = Returned ret m1 ->
  ret = ARCHIVE_WARN \/ ARCHIVE_OK <= ret ->
  skip_file_dev (handle m) = 0 \/ skip_file_ino (handle m) = 0 ->
  format_write_header (handle m) = Some h ->
  exists r m',
    _archive_write_header entry m = Returned r m' /\
    trace m' = trace m1 ++ [call_format_write_header entry] /\
    (r = ARCHIVE_FATAL \/ r = Z.min ret (fst (h entry (world m1)))).
Proof.
  intros Hlegal Hfin Hret Hzero Hwh.
  destruct (header_run m entry ret m1 Hlegal Hfin) as [_ Hstep].
  assert (Hnf : (ret =? ARCHIVE_FATAL) = false)
    by (apply Z.eqb_neq; unfold ARCHIVE_FATAL, ARCHIVE_WARN, ARCHIVE_OK in *;
        lia).
  assert (Hne : (ret <? ARCHIVE_OK) && negb (ret =? ARCHIVE_WARN) = false).
  { destruct Hret as [-> | Hret]; [reflexivity|].
    apply andb_false_iff. left. apply Z.ltb_ge. exact Hret. }
  assert (Hskip : is_skip_file (handle m) entry = false).
  { unfold is_skip_file. destruct Hzero as [-> | ->].
    - reflexivity.
    - cbn. rewrite andb_false_r. reflexivity. }
  rewrite Hnf, Hne, Hskip, Hwh in Hstep. cbv zeta in Hstep.
  destruct (fst (h entry (world m1)) =? ARCHIVE_FATAL).
  - do 2 eexists. split; [exact Hstep|]. split; [reflexivity|]. now left.
  - do 2 eexists. split; [exact Hstep|]. split; [reflexivity|]. right.
    destruct (Z.ltb_spec (fst (h entry (world m1))) ret); lia.
Qed.

(** X3.  Two headers in a row: when a first [write_header], called in
    state HEADER, has handed its entry to the backend without a Fatal,
    a second [write_header] first calls the backend's finish-entry hook,
    once, and only then, if at all, the write-header hook for the second
    entry. *)
Theorem write_header_twice m e1 e2 r1 m1 r2 m2 :
  state (handle m) = ARCHIVE_STATE_HEADER ->
  is_skip_file (handle m) e1 = false ->
  _archive_write_header e1 m = Returned r1 m1 ->
  r1 <> ARCHIVE_FATAL ->
  _archive_write_header e2 m1 = Returned r2 m2 ->
  trace m1 = trace m ++ [call_format_write_header e1] /\
  (trace m2 = trace m1 ++ [call_format_finish_entry] \/
   trace m2 = trace m1 ++
     [call_format_finish_entry; call_format_write_header e2]).
Proof.
  intros Hst Hskip Hrun1 Hr1 Hrun2.
  assert (Hlegal : legal_for_header m) by (left; exact Hst).
  pose proof (finish_entry_header W ptr (cleared m) Hst) as Hfin.
  destruct (header_run m e1 ARCHIVE_OK _ Hlegal Hfin) as [_ Hstep].
  rewrite Hstep, Hskip in Hrun1. clear Hstep.
  change (ARCHIVE_OK =? ARCHIVE_FATAL) with false in Hrun1.
  change ((ARCHIVE_OK <? ARCHIVE_OK) && negb (ARCHIVE_OK =? ARCHIVE_WARN))
    with false in Hrun1. cbv iota in Hrun1.
  destruct (format_write_header (handle m)) as [h|] eqn:Hwh; [|discriminate].
  cbv zeta in Hrun1.
  destruct (fst (h e1 (world (moved ARCHIVE_STATE_HEADER (cleared m))))
            =? ARCHIVE_FATAL).
  { inversion Hrun1; subst. contradiction. }
  inversion Hrun1; subst r1 m1. clear Hrun1.
  split; [reflexivity|].
  set (m1 := moved ARCHIVE_STATE_DATA _) in *.
  assert (Hlegal1 : legal_for_header m1) by (right; reflexivity).
  destruct (header_finish_runs m1 e2 r2 m2 Hlegal1 Hrun2)
    as (ret & m1' & Hfin1).
  destruct (finish_entry_inv W ptr (cleared m1) ret m1' Hlegal1 Hfin1)
    as [_ [(Hbad & _) | (_ & fe & _ & _ & _ & Ht)]];
    [discriminate Hbad|].
  destruct (header_run m1 e2 ret m1' Hlegal1 Hfin1) as [_ Hstep].
  rewrite Hstep in Hrun2. clear Hstep.
  destruct (ret =? ARCHIVE_FATAL).
  { inversion Hrun2; subst. left. exact Ht. }
  destruct ((ret <? ARCHIVE_OK) && negb (ret =? ARCHIVE_WARN)).
  { inversion Hrun2; subst. left. exact Ht. }
  destruct (is_skip_file (handle m1) e2).
  { inversion Hrun2; subst. left. exact Ht. }
  destruct (format_write_header (handle m1)) as [h'|]; [|discriminate].
  cbv zeta in Hrun2.
  destruct (fst (h' e2 (world m1')) =? ARCHIVE_FATAL);
    inversion Hrun2; subst; right;
    cbn [moved with_handle called trace]; rewrite Ht, <- app_assoc;
    reflexivity.
Qed.

(** X4.  [finish_entry] is idempotent: called again right after it has
    returned, it returns OK, calls no hook and leaves the machine as it
    is. *)
Theorem finish_entry_twice m ret m1 :
  legal_for_header m ->
  _archive_write_finish_entry m = Returned ret m1 ->
  _archive_write_finish_entry m1 = Returned ARCHIVE_OK m1.
Proof.
  intros Hlegal Hrun.
  destruct (finish_entry_inv W ptr m ret m1 Hlegal Hrun) as [Hh _].
  assert (Hst : state (handle m1) = ARCHIVE_STATE_HEADER)
    by (rewrite Hh; reflexivity).
  rewrite (finish_entry_header W ptr m1 Hst). f_equal.
  destruct m1 as [a1 w1 t1]. cbn [handle] in Hh.
  unfold moved, with_handle. cbn [handle world trace]. f_equal.
  rewrite Hh. reflexivity.
Qed.

(** *** Closing an open handle *)

Lemma close_filter_run n m f :
  nth_error (filters (handle m)) n = Some f ->
  __archive_write_close_filter n m =
  Returned (fst (phase (close_hook (handle m) f) (world m)))
    {| handle := handle m;
       world := snd (phase (close_hook (handle m) f) (world m));
       trace := trace m ++
                phase_calls (close_hook (handle m) f) (close_event n f) |}.
Proof.
  intros Hf. unfold __archive_write_close_filter.
  rewrite (bind_returned W ptr _ _ _ _ _ (get_filter_run W ptr n m f Hf)).
  unfold close_hook, close_event.
  destruct (close f) as [[|h]|].
  - unfold archive_write_client_close, bind, get_archive.
    destruct (client_closer (handle m)) as [closer|]; cbn [option_map].
    + rewrite invoke_some. reflexivity.
    + unfold pure. cbn [phase phase_calls fst snd]. rewrite app_nil_r.
      destruct m; reflexivity.
  - rewrite invoke_some. reflexivity.
  - unfold pure. cbn [phase phase_calls fst snd]. rewrite app_nil_r.
    destruct m; reflexivity.
Qed.

Lemma phase_run (h : option (hook W)) ev m :
  match h with
  | Some h' => invoke ev (Some h')
  | None => pure ARCHIVE_OK
  end m =
  Returned (fst (phase h (world m)))
    {| handle := handle m; world := snd (phase h (world m));
       trace := trace m ++ phase_calls h ev |}.
Proof.
  destruct h as [h'|].
  - rewrite invoke_some. reflexivity.
  - unfold pure. cbn [phase phase_calls fst snd]. rewrite app_nil_r.
    destruct m; reflexivity.
Qed.

Lemma close_phases m f rest :
  legal_for_header m ->
  (state (handle m) = ARCHIVE_STATE_DATA ->
   format_finish_entry (handle m) <> None) ->
  filters (handle m) = f :: rest ->
  let h0 := pending_finish_entry (handle m) in
  let h1 := format_finish (handle m) in
  let h2 := close_hook (handle m) f in
  let p0 := phase h0 (world m) in
  let p1 := phase h1 (snd p0) in
  let p2 := phase h2 (snd p1) in
  exists m',
    _archive_write_close m =
      Returned
        (Z.min match h1 with
               | Some _ => Z.min (fst p0) (fst p1)
               | None => fst p0
               end (fst p2)) m' /\
    state (handle m') = ARCHIVE_STATE_CLOSED /\
    world m' = snd p2 /\
    trace m' = trace m ++ phase_calls h0 call_format_finish_entry ++
               phase_calls h1 call_format_finish ++
               phase_calls h2 (close_event 0 f).
Proof.
  intros Hlegal Hfe Hfs. cbv zeta.
  unfold _archive_write_close, pending_finish_entry.
  unfold bind at 1, get_archive at 1.
  assert (Hnf : has_bits (state (handle m)) ARCHIVE_STATE_FATAL = false)
    by (destruct Hlegal as [H | H]; rewrite H; reflexivity).
  assert (Hnc : has_bits (state (handle m))
                  (Z.lor ARCHIVE_STATE_NEW ARCHIVE_STATE_CLOSED) = false)
    by (destruct Hlegal as [H | H]; rewrite H; reflexivity).
  rewrite Hnf, Hnc.
  erewrite bind_returned
    by (unfold archive_clear_error, update; reflexivity).
  erewrite bind_returned
    by (apply check_magic_ok; cbn [handle set_error_field state];
        destruct Hlegal as [H | H]; rewrite H; reflexivity).
  set (h0 := if has_bits (state (handle m)) ARCHIVE_STATE_DATA
             then format_finish_entry (handle m) else None).
  assert (Hp0 : forall m0 : machine W ptr,
            (if has_bits (state (handle m)) ARCHIVE_STATE_DATA
             then invoke call_format_finish_entry
                    (format_finish_entry (handle m))
             else pure ARCHIVE_OK) m0 =
            Returned (fst (phase h0 (world m0)))
              {| handle := handle m0; world := snd (phase h0 (world m0));
                 trace := trace m0 ++
                          phase_calls h0 call_format_finish_entry |}).
  { intros m0. subst h0.
    destruct (has_bits (state (handle m)) ARCHIVE_STATE_DATA) eqn:Hd.
    - destruct (format_finish_entry (handle m)) as [fe|] eqn:Hfe'.
      + apply (phase_run (Some fe)).
      + exfalso. apply Hfe; [|reflexivity].
        destruct Hlegal as [H | H]; [|exact H].
        rewrite H in Hd. discriminate Hd.
    - apply (phase_run None). }
  rewrite (bind_returned W ptr _ _ _ _ _ (Hp0 _)).
  cbn [world handle trace].
  set (p0 := phase h0 (world m)).
  destruct (format_finish (handle m)) as [fin|] eqn:Hfin.
  - erewrite bind_returned
      by (rewrite (bind_returned W ptr _ _ _ _ _
                     (invoke_some W ptr _ fin _)); reflexivity).
    cbn [called handle world trace].
    erewrite bind_returned
      by (apply (close_filter_run 0 _ f);
          cbn [handle called set_error_field filters]; rewrite Hfs;
          reflexivity).
    cbn [handle world trace set_error_field client_closer].
    eexists. split.
    + unfold bind, update, pure. f_equal.
      cbn [phase fst snd].
      match goal with
      | |- context [fst (phase (close_hook ?a f) ?w)] =>
          change (fst (phase (close_hook a f) w))
            with (fst (phase (close_hook (handle m) f) (snd (fin (snd p0)))));
          set (r2 := fst (phase (close_hook (handle m) f)
                            (snd (fin (snd p0)))))
      end.
      set (r0 := fst p0). set (r1 := fst (fin (snd p0))).
      destruct (Z.ltb_spec r1 r0);
        [destruct (Z.ltb_spec r2 r1) | destruct (Z.ltb_spec r2 r0)]; lia.
    + unfold called.
      cbn [handle world trace set_state state phase phase_calls fst snd].
      split; [reflexivity|]. split; [reflexivity|].
      rewrite <- ?app_assoc. reflexivity.
  - erewrite bind_returned by reflexivity.
    cbn [handle world trace].
    erewrite bind_returned
      by (apply (close_filter_run 0 _ f);
          cbn [handle called set_error_field filters]; rewrite Hfs;
          reflexivity).
    cbn [handle world trace set_error_field client_closer].
    eexists. split.
    + unfold bind, update, pure. f_equal.
      cbn [phase fst snd].
      match goal with
      | |- context [fst (phase (close_hook ?a f) ?w)] =>
          change (fst (phase (close_hook a f) w))
            with (fst (phase (close_hook (handle m) f) (snd p0)));
          set (r2 := fst (phase (close_hook (handle m) f) (snd p0)))
      end.
      set (r0 := fst p0).
      destruct (Z.ltb_spec r2 r0); lia.
    + cbn [handle world trace set_state state phase phase_calls fst snd
           app].
      split; [reflexivity|]. split; [reflexivity|].
      rewrite <- ?app_assoc. reflexivity.
Qed.

(** X5.  [close] on a handle in state HEADER or DATA runs its three
    phases in this order, each on the world the one before left and
    whatever the one before returned, Fatal included: the backend's
    finish-entry hook (in state DATA only), the backend's finish hook
    (if bound), the close of the head filter.  It returns the lowest of
    the statuses of the phases (a phase without a hook counts as OK,
    an unbound finish hook does not count) and leaves the handle in
    state CLOSED. *)
Theorem close_runs_all_phases m f rest :
  legal_for_header m ->
  (state (handle m) = ARCHIVE_STATE_DATA ->
   format_finish_entry (handle m) <> None) ->
  filters (handle m) = f :: rest ->
  let h0 := pending_finish_entry (handle m) in
  let h1 := format_finish (handle m) in
  let h2 := close_hook (handle m) f in
  let p0 := phase h0 (world m) in
  let p1 := phase h1 (snd p0) in
  let p2 := phase h2 (snd p1) in
  exists m',
    _archive_write_close m =
      Returned
        (Z.min match h1 with
               | Some _ => Z.min (fst p0) (fst p1)
               | None => fst p0
               end (fst p2)) m' /\
    state (handle m') = ARCHIVE_STATE_CLOSED /\
    world m' = snd p2 /\
    trace m' = trace m ++ phase_calls h0 call_format_finish_entry ++
               phase_calls h1 call_format_finish ++
               phase_calls h2 (close_event 0 f).
Proof. exact (close_phases m f rest). Qed.

Lemma close_leaves_closed m r m' :
  legal_for_header m ->
  _archive_write_close m = Returned r m' ->
  state (handle m') = ARCHIVE_STATE_CLOSED.
Proof.
  intros Hlegal Hrun.
  revert Hrun. unfold _archive_write_close.
  unfold bind at 1, get_archive at 1.
  assert (Hnf : has_bits (state (handle m)) ARCHIVE_STATE_FATAL = false)
    by (destruct Hlegal as [H | H]; rewrite H; reflexivity).
  assert (Hnc : has_bits (state (handle m))
                  (Z.lor ARCHIVE_STATE_NEW ARCHIVE_STATE_CLOSED) = false)
    by (destruct Hlegal as [H | H]; rewrite H; reflexivity).
  rewrite Hnf, Hnc. unfold bind, update, archive_clear_error, pure.
  repeat (cbv beta iota;
          match goal with
          | |- context [match ?x with
                        | Returned _ _ => _
                        | Stopped _ => _
                        end] =>
              destruct x; [|discriminate]
          end).
  intros Hrun. inversion Hrun; reflexivity.
Qed.

(** X6.  Closing twice: whenever [close] has returned on a handle in
    state HEADER or DATA, whatever its status, the handle is in state
    CLOSED, and a second [close] returns OK, calls no hook and changes
    nothing but the current error, which it clears. *)
Theorem close_twice m r m' :
  legal_for_header m ->
  _archive_write_close m = Returned r m' ->
  state (handle m') = ARCHIVE_STATE_CLOSED /\
  _archive_write_close m' = Returned ARCHIVE_OK (cleared m').
Proof.
  intros Hlegal Hrun.
  pose proof (close_leaves_closed m r m' Hlegal Hrun) as Hst.
  split; [exact Hst|].
  unfold _archive_write_close, bind, get_archive. rewrite Hst. reflexivity.
Qed.

End Lifecycle.

(** * Further properties of the filter chain *)

Section Chain.

Variable W : Type.
Variable ptr : Type.

Implicit Types (m : machine W ptr) (a : archive_write W ptr)
  (f : archive_write_filter W ptr).

Lemma filter_walk_nth n : forall l : list (archive_write_filter W ptr),
  hd_error (filter_walk n l) = nth_error l n.
Proof.
  induction n as [|n IH]; intros [|f l]; cbn; try reflexivity. apply IH.
Qed.

Lemma filter_lookup_nat a (k : nat) :
  filter_lookup a (Z.of_nat k) = nth_error (filters a) k.
Proof.
  unfold filter_lookup.
  destruct (Z.eqb_spec (Z.of_nat k) (-1)) as [H | _]; [lia|].
  destruct (Z.ltb_spec (Z.of_nat k) 0) as [H | _]; [lia|].
  rewrite Nat2Z.id. apply filter_walk_nth.
Qed.

(** X7.  [filter_lookup] and the three getters built on it: position
    [n >= 0] is the node [n] links after the head, position [-1] is the
    last node of the chain, and any other negative position, a position
    past the end, or [-1] on an empty chain give no node, for which the
    code and byte count read [-1] and the name is null. *)
Theorem filter_lookup_positions a n :
  (0 <= n -> filter_lookup a n = nth_error (filters a) (Z.to_nat n)) /\
  (forall fs f, filters a = fs ++ [f] -> filter_lookup a (-1) = Some f) /\
  (n < -1 \/ Z.of_nat (List.length (filters a)) <= n \/
   (n = -1 /\ filters a = []) ->
   filter_lookup a n = None /\
   _archive_filter_code a n = -1 /\
   _archive_filter_bytes a n = -1 /\
   _archive_filter_name a n = None).
Proof.
  split; [|split].
  - intros Hn. rewrite <- (Z2Nat.id n Hn) at 1. apply filter_lookup_nat.
  - intros fs f Hfs. unfold filter_lookup, filter_last. cbn [Z.eqb Pos.eqb].
    rewrite Hfs, length_app. cbn [List.length].
    rewrite Nat.add_sub, nth_error_app2, Nat.sub_diag by apply Nat.le_refl.
    reflexivity.
  - intros Hn.
    assert (Hnone : filter_lookup a n = None).
    { destruct Hn as [Hn | [Hn | [-> Hfs]]].
      - unfold filter_lookup.
        destruct (Z.eqb_spec n (-1)) as [H | _]; [lia|].
        destruct (Z.ltb_spec n 0) as [_ | H]; [reflexivity | lia].
      - assert (H0 : 0 <= n) by lia.
        rewrite <- (Z2Nat.id n H0), filter_lookup_nat.
        apply nth_error_None. lia.
      - unfold filter_lookup, filter_last. cbn [Z.eqb Pos.eqb].
        rewrite Hfs. reflexivity. }
    unfold _archive_filter_code, _archive_filter_bytes, _archive_filter_name.
    rewrite Hnone. repeat split.
Qed.

(** The chain once the counter of the node at position [n] has been
    rewritten. *)
Lemma write_filter_run fuel n buff length m f r m1 :
  nth_error (filters (handle m)) n = Some f ->
  call_write fuel n f buff length m = Returned r m1 ->
  exists m',
    __archive_write_filter fuel n buff length m = Returned r m' /\
    world m' = world m1 /\ trace m' = trace m1 /\
    filters (handle m') =
      firstn n (filters (handle m)) ++
      [set_bytes_written (to_int64 (bytes_written f + length)) f] ++
      skipn (S n) (filters (handle m)).
Proof.
  intros Hf Hcall.
  pose proof (call_write_handle W ptr _ _ _ _ _ _ _ _ Hcall) as Hh.
  unfold __archive_write_filter.
  rewrite (bind_returned W ptr _ _ _ _ _ (get_filter_run W ptr n m f Hf)).
  rewrite (bind_returned W ptr _ _ _ _ _ Hcall).
  unfold bind, modify_filter, update, pure.
  rewrite Hh, Hf. eexists. split; [reflexivity|]. repeat split.
Qed.

(** X9.  [__archive_write_allocate_filter], legal in state NEW only,
    puts a zeroed node at the end of the chain and returns its
    position: that position and position [-1] now give the new node,
    with code [0] and no byte written, and the nodes that were there
    read as before. *)
Theorem allocate_filter_appends m :
  state (handle m) = ARCHIVE_STATE_NEW ->
  exists m',
    __archive_write_allocate_filter m =
      Returned (List.length (filters (handle m))) m' /\
    world m' = world m /\ trace m' = trace m /\
    filter_lookup (handle m')
      (Z.of_nat (List.length (filters (handle m)))) = Some blank_filter /\
    filter_lookup (handle m') (-1) = Some blank_filter /\
    _archive_filter_code (handle m') (-1) = 0 /\
    _archive_filter_bytes (handle m') (-1) = 0 /\
    (forall k : nat, (k < List.length (filters (handle m)))%nat ->
     filter_lookup (handle m') (Z.of_nat k) =
     filter_lookup (handle m) (Z.of_nat k)).
Proof.
  intros Hst. eexists. split; [apply allocate_filter_run; exact Hst|].
  cbn [with_handle handle world trace set_filters filters].
  assert (Hlast : filter_lookup
                    (set_filters (filters (handle m) ++ [blank_filter])
                       (handle m)) (-1) = Some blank_filter).
  { unfold filter_lookup, filter_last. cbn [Z.eqb Pos.eqb set_filters filters].
    rewrite length_app. cbn [List.length].
    rewrite Nat.add_sub, nth_error_app2, Nat.sub_diag by apply Nat.le_refl.
    reflexivity. }
  unfold _archive_filter_code, _archive_filter_bytes. rewrite Hlast.
  repeat split.
  - rewrite filter_lookup_nat. cbn [set_filters filters].
    rewrite nth_error_app2, Nat.sub_diag by apply Nat.le_refl. reflexivity.
  - intros k Hk. rewrite !filter_lookup_nat. cbn [set_filters filters].
    apply nth_error_app1. exact Hk.
Qed.

End Chain.

(** * Further properties of opening *)

Section Opening.

Variable W : Type.
Variable ptr : Type.
Variable compression_none : archive_write_filter W ptr.

Implicit Types (m : machine W ptr) (a : archive_write W ptr)
  (f : archive_write_filter W ptr).

Lemma open_outcome m client_data opener writer closer :
  state (handle m) = ARCHIVE_STATE_NEW ->
  exists ret m2 m',
    __archive_write_open_filter 0
      (ready_to_open compression_none client_data opener writer closer m)
      = Returned ret m2 /\
    archive_write_open compression_none client_data opener writer closer m
      = Returned
          match format_init (handle m) with
          | Some init =>
              if ret =? ARCHIVE_OK then fst (init (world m2)) else ret
          | None => ret
          end m' /\
    handle m' =
      set_state ARCHIVE_STATE_HEADER
        (set_filters
           (opened_chain compression_none (filters (handle m)) client_data)
           (set_client opener writer closer
              (set_error_field None (handle m)))) /\
    filter_lookup (handle m') (-1) = Some (client_filter client_data).
Proof.
  intros H.
  destruct (opened_chain_head W ptr compression_none (filters (handle m))
              client_data) as (f & rest & Hchain).
  destruct (open_filter_returns W ptr 0
              (ready_to_open compression_none client_data opener writer
                 closer m) f)
    as (ret & m2 & evs & Hopen & Hh & _ & _).
  { cbn [ready_to_open with_handle handle set_filters filters].
    rewrite Hchain. reflexivity. }
  pose proof (open_builds_chain W ptr compression_none m client_data opener
                writer closer H) as Hrun.
  rewrite Hopen in Hrun.
  assert (Hinit : format_init (handle m2) = format_init (handle m))
    by (rewrite Hh; reflexivity).
  rewrite Hinit in Hrun.
  assert (Hlast : filter_lookup
            (set_state ARCHIVE_STATE_HEADER
               (set_filters
                  (opened_chain compression_none (filters (handle m))
                     client_data)
                  (set_client opener writer closer
                     (set_error_field None (handle m))))) (-1) =
            Some (client_filter client_data)).
  { unfold filter_lookup, filter_last, opened_chain.
    cbn [Z.eqb Pos.eqb set_state set_filters filters].
    rewrite length_app. cbn [List.length].
    rewrite Nat.add_sub, nth_error_app2, Nat.sub_diag by apply Nat.le_refl.
    reflexivity. }
  exists ret, m2.
  destruct (format_init (handle m)) as [init|].
  - destruct (ret =? ARCHIVE_OK).
    + rewrite invoke_some in Hrun. eexists. split; [exact Hopen|].
      split; [exact Hrun|]. cbn [called moved with_handle handle].
      rewrite Hh. split; [reflexivity | exact Hlast].
    + eexists. split; [exact Hopen|]. split; [exact Hrun|].
      cbn [moved with_handle handle]. rewrite Hh.
      split; [reflexivity | exact Hlast].
  - eexists. split; [exact Hopen|]. split; [exact Hrun|].
    cbn [moved with_handle handle]. rewrite Hh.
    split; [reflexivity | exact Hlast].
Qed.

(** X10.  [open], called in state NEW, returns.  Its status is the
    status of opening the head filter unless that is OK and an init
    hook is bound, in which case it is the init hook's status.  The
    init hook runs after the head filter has been opened, in the world
    the opening left; it is not run when opening the head filter did
    not return OK. *)
Theorem open_result m client_data opener writer closer :
  state (handle m) = ARCHIVE_STATE_NEW ->
  exists ret m2 m',
    __archive_write_open_filter 0
      (ready_to_open compression_none client_data opener writer closer m)
      = Returned ret m2 /\
    archive_write_open compression_none client_data opener writer closer m
      = Returned
          match format_init (handle m) with
          | Some init =>
              if ret =? ARCHIVE_OK then fst (init (world m2)) else ret
          | None => ret
          end m' /\
    world m' =
      match format_init (handle m) with
      | Some init =>
          if ret =? ARCHIVE_OK then snd (init (world m2)) else world m2
      | None => world m2
      end /\
    trace m' =
      match format_init (handle m) with
      | Some init =>
          if ret =? ARCHIVE_OK then trace m2 ++ [call_format_init]
          else trace m2
      | None => trace m2
      end.
Proof.
  intros H.
  destruct (opened_chain_head W ptr compression_none (filters (handle m))
              client_data) as (f & rest & Hchain).
  destruct (open_filter_returns W ptr 0
              (ready_to_open compression_none client_data opener writer
                 closer m) f)
    as (ret & m2 & evs & Hopen & Hh & _ & _).
  { cbn [ready_to_open with_handle handle set_filters filters].
    rewrite Hchain. reflexivity. }
  pose proof (open_builds_chain W ptr compression_none m client_data opener
                writer closer H) as Hrun.
  rewrite Hopen in Hrun.
  assert (Hinit : format_init (handle m2) = format_init (handle m))
    by (rewrite Hh; reflexivity).
  rewrite Hinit in Hrun.
  exists ret, m2.
  destruct (format_init (handle m)) as [init|].
  - destruct (ret =? ARCHIVE_OK).
    + rewrite invoke_some in Hrun. eexists. split; [exact Hopen|].
      split; [exact Hrun|]. split; reflexivity.
    + eexists. split; [exact Hopen|]. split; [exact Hrun|].
      split; reflexivity.
  - eexists. split; [exact Hopen|]. split; [exact Hrun|].
    split; reflexivity.
Qed.

(** X11.  [open] binds the sink: after it has returned, a write of
    [length > 0] bytes through the last node of the chain calls the
    writer given to [open], with the client data given to [open], the
    buffer and the length; a negative answer is returned at once
    (converted to [int]), a zero answer gives Fatal, a positive one
    sends the rest of the buffer to the writer again. *)
Theorem open_binds_writer m client_data opener
    (writer : option ptr -> write_hook W) closer r m' fuel buff length :
  state (handle m) = ARCHIVE_STATE_NEW ->
  archive_write_open compression_none client_data opener (Some writer)
    closer m = Returned r m' ->
  0 < length ->
  exists n f,
    nth_error (filters (handle m')) n = Some f /\
    filter_lookup (handle m') (-1) = Some f /\
    let written := fst (writer client_data buff length (world m')) in
    let m1 := called (call_client_writer length written)
                (snd (writer client_data buff length (world m'))) m' in
    call_write (S fuel) n f buff length m' =
    if written <? 0 then Returned (to_int written) m1
    else if written =? 0 then Returned ARCHIVE_FATAL m1
    else archive_write_client_write fuel f
           (skipn (Z.to_nat written) buff) (to_size_t (length - written))
           m1.
Proof.
  intros H Hrun Hlen.
  destruct (open_outcome m client_data opener (Some writer) closer H)
    as (ret & m2 & m0 & _ & Hrun' & Hh & Hlast).
  rewrite Hrun in Hrun'. inversion Hrun'; subst m0. clear Hrun'.
  set (fs := match filters (handle m) with
             | [] => [compression_none]
             | _ => filters (handle m)
             end).
  exists (List.length fs), (client_filter client_data).
  assert (Hnth : nth_error (filters (handle m')) (List.length fs) =
                 Some (client_filter client_data)).
  { rewrite Hh. cbn [set_state set_filters filters]. unfold opened_chain.
    fold fs. rewrite nth_error_app2, Nat.sub_diag by apply Nat.le_refl.
    reflexivity. }
  split; [exact Hnth|]. split; [exact Hlast|].
  unfold call_write. cbn [client_filter write].
  assert (Hw : client_writer (handle m') = Some writer)
    by (rewrite Hh; reflexivity).
  exact (client_write_round W ptr fuel (client_filter client_data) buff
           length m' writer Hw Hlen).
Qed.

End Opening.

(** * Further properties of option dispatch *)

Section Options.

Variable W : Type.
Variable ptr : Type.
Variable parse : string -> string -> Z -> Z -> Z * string * string.

Implicit Types (m : machine W ptr) (a : archive_write W ptr)
  (f : archive_write_filter W ptr).

Lemma error_only_format_name a a' :
  error_only a a' -> format_name a' = format_name a.
Proof.
  intros H. change (format_name (set_error_field None a') =
                    format_name (set_error_field None a)).
  rewrite H. reflexivity.
Qed.

Lemma error_only_compression_name a a' :
  error_only a a' -> compression_name a' = compression_name a.
Proof.
  intros H. change (compression_name (set_error_field None a') =
                    compression_name (set_error_field None a)).
  rewrite H. reflexivity.
Qed.

Lemma advance_rest s len m :
  0 < len -> len <= Z.of_nat (String.length s) ->
  advance s len m = Returned (rest_of s len) m /\
  (String.length (rest_of s len) < String.length s)%nat.
Proof.
  intros Hpos Hle. unfold advance, rest_of.
  destruct (Nat.leb_spec (Z.to_nat len) (String.length s)) as [_ | Hgt];
    [|lia].
  split; [reflexivity|].
  pose proof (substring_length_le s (Z.to_nat len)
                (String.length s - Z.to_nat len)). lia.
Qed.

Lemma keep_status_exact r key ret m :
  exists m',
    (if r <? ARCHIVE_OK
     then bind (archive_set_error ARCHIVE_ERRNO_MISC (unsupported_option key))
            (fun _ => pure ARCHIVE_WARN)
     else pure ret) m =
    Returned (if r <? ARCHIVE_OK then ARCHIVE_WARN else ret) m' /\
    error_only (handle m) (handle m') /\
    world m' = world m /\ trace m' = trace m.
Proof.
  destruct (r <? ARCHIVE_OK); eexists; repeat split.
Qed.

Lemma format_options_loop_exact fuel : forall s ret m h,
  consumes_within parse ->
  format_options (handle m) = Some h ->
  (String.length s < fuel)%nat ->
  let toks := fst (tokenize parse (format_name (handle m)) fuel s) in
  let len := snd (tokenize parse (format_name (handle m)) fuel s) in
  let rs := fst (answers h toks (world m)) in
  exists m',
    format_options_loop parse fuel s ret m =
      Returned
        (if existsb (fun r => r =? ARCHIVE_FATAL) rs
         then inl ARCHIVE_FATAL
         else inr (len, if existsb (fun r => r <? ARCHIVE_OK) rs
                        then ARCHIVE_WARN else ret)) m' /\
    error_only (handle m) (handle m') /\
    world m' = snd (answers h toks (world m)) /\
    trace m' = trace m ++ format_calls (firstn (List.length rs) toks).
Proof.
  induction fuel as [|fuel IH]; intros s ret m h Hsane Hfo Hfuel; [lia|].
  cbv zeta. cbn [format_options_loop tokenize].
  unfold bind at 1, get_archive at 1.
  pose proof (Hsane s (format_name (handle m)) 64 64) as Hle.
  destruct (parse s (format_name (handle m)) 64 64) as [[len key] val].
  cbn [fst] in Hle.
  destruct (Z.ltb_spec 0 len) as [Hpos | Hnpos].
  2:{ exists m. cbn [fst snd answers existsb List.length firstn].
      unfold format_calls. cbn [map]. rewrite app_nil_r. repeat split. }
  rewrite Hfo. cbn [option_map].
  rewrite (bind_returned W ptr _ _ _ _ _ (invoke_some W ptr _ _ m)).
  destruct (advance_rest s len
              (called (call_format_options key (val_or_null val))
                 (snd (h key (val_or_null val) (world m))) m) Hpos Hle)
    as [_ Hshort].
  destruct (tokenize parse (format_name (handle m)) fuel (rest_of s len))
    as [toks last_len] eqn:Htok.
  cbn [fst snd answers].
  destruct (h key (val_or_null val) (world m)) as [r w1] eqn:Hh.
  cbn [fst snd].
  destruct (Z.eqb_spec r ARCHIVE_FATAL) as [Hf | Hnf].
  { eexists. cbn [fst snd existsb List.length firstn].
    apply Z.eqb_eq in Hf as Hf'. rewrite Hf'. cbn [orb].
    split; [unfold pure; rewrite Hf; reflexivity|].
    split; [reflexivity|]. split; [reflexivity|].
    unfold called, format_calls. cbn [trace map fst snd]. reflexivity. }
  set (m1 := called (call_format_options key (val_or_null val)) w1 m).
  destruct (keep_status_exact r key ret m1)
    as (m2 & Hkeep & He2 & Hw2 & Ht2).
  rewrite (bind_returned W ptr _ _ _ _ _ Hkeep).
  destruct (advance_rest s len m2 Hpos Hle) as [Hadv _].
  rewrite (bind_returned W ptr _ _ _ _ _ Hadv).
  assert (Hfo2 : format_options (handle m2) = Some h)
    by (rewrite (error_only_format_options W ptr _ _ He2); exact Hfo).
  destruct (IH (rest_of s len) (if r <? ARCHIVE_OK then ARCHIVE_WARN else ret)
              m2 h Hsane Hfo2) as (m' & Hrun & He & Hw & Ht); [lia|].
  rewrite (error_only_format_name _ _ He2) in Hrun, Hw, Ht.
  cbn [handle called] in Hrun, Hw, Ht. subst m1.
  cbn [called handle] in Hrun, Hw, Ht.
  rewrite Htok in Hrun, Hw, Ht. cbn [fst snd] in Hrun, Hw, Ht.
  rewrite Hw2 in Hrun, Hw, Ht. cbn [called world] in Hrun, Hw, Ht.
  destruct (answers h toks w1) as [rs w'] eqn:Hans.
  cbn [fst snd] in Hrun, Hw, Ht |- *.
  exists m'. cbn [existsb List.length firstn].
  apply Z.eqb_neq in Hnf. rewrite Hnf. cbn [orb].
  split.
  - rewrite Hrun. f_equal.
    destruct (existsb (fun r0 => r0 =? ARCHIVE_FATAL) rs); [reflexivity|].
    destruct (r <? ARCHIVE_OK); cbn [orb]; [|reflexivity].
    destruct (existsb (fun r0 => r0 <? ARCHIVE_OK) rs); reflexivity.
  - split; [exact (error_only_trans W ptr _ _ _ He2 He)|].
    split; [exact Hw|].
    rewrite Ht, Ht2. unfold called, format_calls.
    cbn [trace map fst snd]. rewrite <- app_assoc. reflexivity.
Qed.

(** X12.  [archive_write_set_format_options] on a non-empty string, in
    state NEW with an options handler bound and a tokenizer that stays
    inside the string: the handler is called once for each key the
    tokenizer cuts out, in order, until it answers Fatal, which ends
    the call at once with Fatal; an answer below OK does not stop the
    loop.  The status is Warn if the string turned out malformed or
    some key was answered below OK, and OK otherwise. *)
Theorem format_options_dispatch c s0 m h :
  consumes_within parse ->
  state (handle m) = ARCHIVE_STATE_NEW ->
  format_options (handle m) = Some h ->
  let s := String c s0 in
  let toks :=
    fst (tokenize parse (format_name (handle m)) (S (String.length s)) s) in
  let len :=
    snd (tokenize parse (format_name (handle m)) (S (String.length s)) s) in
  let rs := fst (answers h toks (world m)) in
  exists m',
    archive_write_set_format_options parse (Some s) m =
      Returned (options_status rs len) m' /\
    world m' = snd (answers h toks (world m)) /\
    trace m' = trace m ++ format_calls (firstn (List.length rs) toks) /\
    (~ In ARCHIVE_FATAL rs -> List.length rs = List.length toks).
Proof.
  intros Hsane Hst Hfo. cbv zeta.
  unfold archive_write_set_format_options.
  erewrite bind_returned
    by (apply check_magic_ok; rewrite Hst; reflexivity).
  erewrite bind_returned by (unfold archive_clear_error, update; reflexivity).
  change {| handle := set_error_field None (handle m);
            world := world m; trace := trace m |} with (cleared m).
  erewrite bind_returned by (unfold get_archive; reflexivity).
  assert (Hfo' : format_options (handle (cleared m)) = Some h) by exact Hfo.
  rewrite Hfo'.
  destruct (format_options_loop_exact (S (String.length (String c s0)))
              (String c s0) ARCHIVE_OK (cleared m) h Hsane Hfo')
    as (m1 & Hrun & _ & Hw & Ht); [lia|].
  rewrite (bind_returned W ptr _ _ _ _ _ Hrun).
  change (format_name (handle (cleared m))) with (format_name (handle m))
    in Hw, Ht |- *.
  change (world (cleared m)) with (world m) in Hw, Ht |- *.
  change (trace (cleared m)) with (trace m) in Ht.
  set (toks := fst (tokenize parse (format_name (handle m))
                      (S (String.length (String c s0))) (String c s0)))
    in *.
  set (len := snd (tokenize parse (format_name (handle m))
                     (S (String.length (String c s0))) (String c s0)))
    in *.
  assert (Hall : ~ In ARCHIVE_FATAL (fst (answers h toks (world m))) ->
                 List.length (fst (answers h toks (world m))) =
                 List.length toks).
  { clear. generalize (world m). induction toks as [|[k v] toks IH];
      intros w Hno; [reflexivity|].
    cbn [answers] in *. destruct (h k v w) as [r w1].
    destruct (Z.eqb_spec r ARCHIVE_FATAL) as [Hf | Hf].
    - exfalso. apply Hno. left. exact Hf.
    - specialize (IH w1). destruct (answers h toks w1) as [rs w2].
      cbn [fst List.length] in *. f_equal. apply IH.
      intros Hin. apply Hno. right. exact Hin. }
  unfold options_status.
  destruct (existsb (fun r => r =? ARCHIVE_FATAL)
              (fst (answers h toks (world m)))).
  - exists m1. repeat split; assumption.
  - destruct (len <? 0).
    + eexists. split; [reflexivity|].
      cbn [with_handle world trace]. repeat split; assumption.
    + exists m1. split; [|repeat split; assumption].
      unfold pure. f_equal.
Qed.

(** A round of the filter loop on a string the tokenizer is done with:
    nothing is called. *)
Lemma filter_options_loop_idle fuel n (h : option_hook W) s ret m :
  (0 <? fst (fst (parse s (compression_name (handle m)) 64 64))) = false ->
  filter_options_loop parse fuel n h s ret m =
  Returned
    (inr (fst (fst (parse s (compression_name (handle m)) 64 64)), s, ret))
    m.
Proof.
  intros Hdone. destruct fuel; cbn [filter_options_loop];
    unfold bind at 1, get_archive at 1;
    destruct (parse s (compression_name (handle m)) 64 64) as [[len key] val];
    cbn [fst] in Hdone |- *; rewrite Hdone; reflexivity.
Qed.

Lemma filter_options_loop_inv fuel : forall n (h : option_hook W) s ret m x m',
  filter_options_loop parse fuel n h s ret m = Returned x m' ->
  error_only (handle m) (handle m') /\
  (exists evs, trace m' = trace m ++ evs /\
               Forall (is_filter_option_call n) evs) /\
  match x with
  | inl _ => True
  | inr (_, s', _) =>
      (0 <? fst (fst (parse s' (compression_name (handle m)) 64 64))) = false
  end.
Proof.
  induction fuel as [|fuel IH]; intros n h s ret m x m';
    cbn [filter_options_loop]; unfold bind at 1, get_archive at 1;
    destruct (parse s (compression_name (handle m)) 64 64)
      as [[len key] val] eqn:Hp;
    destruct (0 <? len) eqn:Hlen.
  - discriminate.
  - intros Hrun. inversion Hrun; subst. split; [reflexivity|].
    split; [exists []; rewrite app_nil_r; split; [reflexivity | constructor]|].
    rewrite Hp. exact Hlen.
  - rewrite (bind_returned W ptr _ _ _ _ _ (invoke_some W ptr _ _ m)).
    set (r := fst (h key (val_or_null val) (world m))).
    set (m1 := called _ _ m).
    destruct (r =? ARCHIVE_FATAL).
    { intros Hrun. inversion Hrun; subst. split; [reflexivity|].
      split; [|exact I]. eexists. split; [reflexivity|].
      repeat constructor. do 2 eexists. reflexivity. }
    destruct (keep_status_exact r key ret m1) as (m2 & Hkeep & He2 & _ & Ht2).
    rewrite (bind_returned W ptr _ _ _ _ _ Hkeep).
    unfold bind at 1. unfold advance at 1.
    destruct (Z.to_nat len <=? String.length s)%nat; [|discriminate].
    unfold pure at 1. intros Hrun.
    destruct (IH _ _ _ _ _ _ _ Hrun) as (He & (evs & Ht & Hall) & Hx).
    split; [exact (error_only_trans W ptr _ _ _ He2 He)|].
    split.
    + exists (call_filter_options n key (val_or_null val) :: evs).
      split.
      * rewrite Ht, Ht2. subst m1. cbn [called trace].
        rewrite <- app_assoc. reflexivity.
      * constructor; [do 2 eexists; reflexivity | exact Hall].
    + destruct x as [r0 | [[len0 s0] ret0]]; [exact I|].
      rewrite (error_only_compression_name _ _ He2) in Hx. exact Hx.
  - intros Hrun. inversion Hrun; subst. split; [reflexivity|].
    split; [exists []; rewrite app_nil_r; split; [reflexivity | constructor]|].
    rewrite Hp. exact Hlen.
Qed.

(** The [for] loop on a string the tokenizer is done with: no handler
    is called. *)
Lemma filters_options_loop_idle (fs : list (archive_write_filter W ptr)) :
  forall n len s ret m,
  (0 <? fst (fst (parse s (compression_name (handle m)) 64 64))) = false ->
  exists len',
    filters_options_loop parse fs n len s ret m = Returned (inr (len', ret)) m.
Proof.
  induction fs as [|filter fs IH]; intros n len s ret m Hdone;
    cbn [filters_options_loop].
  - exists len. reflexivity.
  - destruct (options filter) as [h|]; [|apply IH; exact Hdone].
    rewrite (bind_returned W ptr _ _ _ _ _
               (filter_options_loop_idle _ n h s ret m Hdone)).
    apply IH. exact Hdone.
Qed.

Lemma filters_options_loop_inv (fs : list (archive_write_filter W ptr)) :
  forall n len s ret m x m',
  filters_options_loop parse fs n len s ret m = Returned x m' ->
  exists evs,
    trace m' = trace m ++ evs /\
    match first_handler n fs with
    | None => evs = []
    | Some (k, _) => Forall (is_filter_option_call k) evs
    end.
Proof.
  induction fs as [|filter fs IH]; intros n len s ret m x m';
    cbn [filters_options_loop first_handler].
  - intros Hrun. inversion Hrun; subst. exists []. rewrite app_nil_r.
    split; reflexivity.
  - destruct (options filter) as [h|]; [|apply IH].
    unfold bind.
    destruct (filter_options_loop parse (S (String.length s)) n h s ret m)
      as [y m1|] eqn:Hloop; [|discriminate].
    destruct (filter_options_loop_inv _ _ _ _ _ _ _ _ Hloop)
      as (He & (evs & Ht & Hall) & Hy).
    destruct y as [r | [[len1 s1] ret1]].
    + intros Hrun. inversion Hrun; subst. exists evs. split; assumption.
    + rewrite <- (error_only_compression_name _ _ He) in Hy.
      destruct (filters_options_loop_idle fs (S n) len1 s1 ret1 m1 Hy)
        as (len' & Hidle).
      rewrite Hidle. intros Hrun. inversion Hrun; subst.
      exists evs. split; assumption.
Qed.

(** X13.  [archive_write_set_compressor_options] offers the options to
    one filter only: every handler call it makes goes to the first
    filter of the chain that has an options handler.  The filters after
    it are never called, since the string has been consumed by then;
    with no handler in the chain nothing is called at all. *)
Theorem compressor_options_reach_first_handler s m r m' :
  archive_write_set_compressor_options parse s m = Returned r m' ->
  exists evs,
    trace m' = trace m ++ evs /\
    match first_handler 0 (filters (handle m)) with
    | None => evs = []
    | Some (k, _) => Forall (is_filter_option_call k) evs
    end.
Proof.
  unfold archive_write_set_compressor_options. unfold bind at 1.
  destruct (__archive_check_magic _ _ m) as [[] m0|] eqn:Hmagic;
    [|discriminate].
  assert (m0 = m).
  { revert Hmagic. unfold __archive_check_magic, bind, get_archive.
    destruct (_ =? _); [|destruct (has_bits _ _)]; intros Hm;
      inversion Hm; reflexivity. }
  subst m0.
  erewrite bind_returned by (unfold archive_clear_error, update; reflexivity).
  assert (Hnone : exists evs,
            trace m = trace m ++ evs /\
            match first_handler 0 (filters (handle m)) with
            | None => evs = []
            | Some (k, _) => Forall (is_filter_option_call k) evs
            end).
  { exists []. rewrite app_nil_r. split; [reflexivity|].
    destruct (first_handler 0 (filters (handle m))) as [[k h]|];
      [constructor | reflexivity]. }
  destruct s as [[|c s]|].
  - intros Hrun. inversion Hrun; subst. exact Hnone.
  - erewrite bind_returned by (unfold get_archive; reflexivity).
    cbn [handle set_error_field filters]. unfold bind at 1.
    destruct (filters_options_loop parse (filters (handle m)) 0 0
                (String c s) ARCHIVE_OK _) as [x m1|] eqn:Hloop;
      [|discriminate].
    destruct (filters_options_loop_inv _ _ _ _ _ _ _ _ Hloop)
      as (evs & Ht & Hall).
    cbn [trace] in Ht.
    destruct x as [r0 | [len ret]].
    + intros Hrun. inversion Hrun; subst. exists evs. split; assumption.
    + destruct (len <? 0); intros Hrun; inversion Hrun; subst;
        exists evs; split; assumption.
  - intros Hrun. inversion Hrun; subst. exact Hnone.
Qed.

(** X14.  With nothing to do, [archive_write_set_options] returns OK
    and calls nothing: on a null or empty options string, and also on
    any string at all, malformed ones included, when neither the
    backend nor any filter has an options handler.  Only the current
    error is cleared. *)
Theorem set_options_nothing_to_do s m :
  state (handle m) = ARCHIVE_STATE_NEW ->
  s = None \/ s = Some EmptyString \/
  (format_options (handle m) = None /\
   first_handler 0 (filters (handle m)) = None) ->
  archive_write_set_options parse s m = Returned ARCHIVE_OK (cleared m).
Proof.
  intros Hst Hidle.
  assert (Hfmt : archive_write_set_format_options parse s m =
                 Returned ARCHIVE_OK (cleared m)).
  { unfold archive_write_set_format_options.
    erewrite bind_returned
      by (apply check_magic_ok; rewrite Hst; reflexivity).
    erewrite bind_returned
      by (unfold archive_clear_error, update; reflexivity).
    destruct Hidle as [-> | [-> | [Hfo _]]]; try reflexivity.
    destruct s as [[|c s]|]; try reflexivity.
    erewrite bind_returned by (unfold get_archive; reflexivity).
    cbn [handle set_error_field format_options]. rewrite Hfo. reflexivity. }
  assert (Hcmp : archive_write_set_compressor_options parse s (cleared m) =
                 Returned ARCHIVE_OK (cleared m)).
  { unfold archive_write_set_compressor_options.
    erewrite bind_returned
      by (apply check_magic_ok; cbn [cleared with_handle handle
            set_error_field state]; rewrite Hst; reflexivity).
    erewrite bind_returned
      by (unfold archive_clear_error, update; reflexivity).
    change {| handle := set_error_field None (handle (cleared m));
              world := world (cleared m); trace := trace (cleared m) |}
      with (cleared m).
    destruct Hidle as [-> | [-> | [_ Hnone]]]; try reflexivity.
    destruct s as [[|c s]|]; try reflexivity.
    erewrite bind_returned by (unfold get_archive; reflexivity).
    change (filters (handle (cleared m))) with (filters (handle m)).
    assert (Hskip : forall (fs : list (archive_write_filter W ptr)) n len s'
                      ret m0,
              first_handler n fs = None ->
              filters_options_loop parse fs n len s' ret m0 =
              Returned (inr (len, ret)) m0).
    { induction fs as [|filter fs IH]; intros n len s' ret m0 Hn;
        cbn [filters_options_loop first_handler] in *; [reflexivity|].
      destruct (options filter); [discriminate|]. apply IH. exact Hn. }
    rewrite (bind_returned W ptr _ _ _ _ _ (Hskip _ _ _ _ _ _ Hnone)).
    reflexivity. }
  unfold archive_write_set_options.
  rewrite (bind_returned W ptr _ _ _ _ _ Hfmt).
  change (ARCHIVE_OK <? ARCHIVE_WARN) with false. cbv iota.
  rewrite (bind_returned W ptr _ _ _ _ _ Hcmp). reflexivity.
Qed.

End Options.

(** * Properties of sequences of calls *)

Section Sequences.

Variable W : Type.
Variable ptr : Type.
Variable compression_none : archive_write_filter W ptr.

Implicit Types (m : machine W ptr) (a : archive_write W ptr)
  (f : archive_write_filter W ptr).

Lemma header_state_after m entry r m' :
  legal_for_header m ->
  _archive_write_header entry m = Returned r m' ->
  state (handle m') = ARCHIVE_STATE_HEADER \/
  state (handle m') = ARCHIVE_STATE_DATA \/
  state (handle m') = ARCHIVE_STATE_FATAL.
Proof.
  intros Hlegal Hrun.
  destruct (header_finish_runs W ptr m entry r m' Hlegal Hrun)
    as (ret & m1 & Hfin).
  destruct (header_run W ptr m entry ret m1 Hlegal Hfin) as [Hh Hstep].
  rewrite Hstep in Hrun. clear Hstep.
  destruct (ret =? ARCHIVE_FATAL).
  { inversion Hrun; subst. right. right. reflexivity. }
  destruct ((ret <? ARCHIVE_OK) && negb (ret =? ARCHIVE_WARN)).
  { inversion Hrun; subst. rewrite Hh. left. reflexivity. }
  destruct (is_skip_file (handle m) entry).
  { inversion Hrun; subst. cbn [with_handle handle]. rewrite Hh.
    left. reflexivity. }
  destruct (format_write_header (handle m)) as [h|]; [|discriminate].
  cbv zeta in Hrun.
  destruct (fst (h entry (world m1)) =? ARCHIVE_FATAL);
    inversion Hrun; subst; [right; right | right; left]; reflexivity.
Qed.

Lemma header_stops m entry :
  has_bits (state (handle m))
    (Z.lor ARCHIVE_STATE_DATA ARCHIVE_STATE_HEADER) = false ->
  _archive_write_header entry m =
  Stopped (InvalidState "archive_write_header").
Proof.
  intros H. unfold _archive_write_header, bind.
  rewrite check_magic_stops by (try discriminate; exact H). reflexivity.
Qed.

Lemma finish_entry_stops m :
  has_bits (state (handle m))
    (Z.lor ARCHIVE_STATE_HEADER ARCHIVE_STATE_DATA) = false ->
  _archive_write_finish_entry m =
  Stopped (InvalidState "archive_write_finish_entry").
Proof.
  intros H. unfold _archive_write_finish_entry, bind.
  rewrite check_magic_stops by (try discriminate; exact H). reflexivity.
Qed.

Lemma open_stops m client_data opener writer closer :
  has_bits (state (handle m)) ARCHIVE_STATE_NEW = false ->
  archive_write_open compression_none client_data opener writer closer m =
  Stopped (InvalidState "archive_write_open").
Proof.
  intros H. unfold archive_write_open, bind.
  rewrite check_magic_stops by (try discriminate; exact H). reflexivity.
Qed.

(** What one call does to the state. *)
Lemma perform_state o m r m' :
  write_state (state (handle m)) ->
  perform compression_none o m = Returned r m' ->
  write_state (state (handle m')) /\
  (state (handle m) = ARCHIVE_STATE_CLOSED \/
   state (handle m) = ARCHIVE_STATE_FATAL ->
   state (handle m') = state (handle m)) /\
  (state (handle m) <> ARCHIVE_STATE_NEW ->
   state (handle m') <> ARCHIVE_STATE_NEW).
Proof.
  intros Hknown Hrun. unfold write_state in *.
  destruct o as [client_data opener writer closer|d i|entry| |];
    cbn [perform] in Hrun.
  - destruct Hknown as [Hs | Hs].
    + destruct (open_run W ptr compression_none m client_data opener writer
                  closer Hs)
        as (ret & m2 & evs & r0 & m0 & _ & _ & _ & _ & Hrun' & Hh & _).
      rewrite Hrun in Hrun'. inversion Hrun'; subst r0 m0.
      rewrite Hh, Hs. cbn [set_state state].
      split; [right; left; reflexivity|].
      split; [intros [H | H]; discriminate H | intros _; discriminate].
    + rewrite open_stops in Hrun; [discriminate|].
      destruct Hs as [Hs | [Hs | [Hs | Hs]]]; rewrite Hs; reflexivity.
  - unfold archive_write_set_skip_file, bind, __archive_check_magic,
      get_archive, update, pure in Hrun. cbn in Hrun.
    inversion Hrun; subst. cbn [handle set_skip_file state].
    split; [exact Hknown|]. split; [reflexivity | intros H; exact H].
  - destruct Hknown as [Hs | [Hs | [Hs | [Hs | Hs]]]].
    + rewrite header_stops in Hrun by (rewrite Hs; reflexivity).
      discriminate.
    + destruct (header_state_after m entry r m' (or_introl Hs) Hrun)
        as [H | [H | H]]; rewrite H, Hs;
        (split; [tauto|]);
        (split; [intros [H' | H']; discriminate H' | intros _; discriminate]).
    + destruct (header_state_after m entry r m' (or_intror Hs) Hrun)
        as [H | [H | H]]; rewrite H, Hs;
        (split; [tauto|]);
        (split; [intros [H' | H']; discriminate H' | intros _; discriminate]).
    + rewrite header_stops in Hrun by (rewrite Hs; reflexivity).
      discriminate.
    + rewrite header_stops in Hrun by (rewrite Hs; reflexivity).
      discriminate.
  - destruct Hknown as [Hs | [Hs | [Hs | [Hs | Hs]]]].
    + rewrite finish_entry_stops in Hrun by (rewrite Hs; reflexivity).
      discriminate.
    + destruct (finish_entry_inv W ptr m r m' (or_introl Hs) Hrun)
        as [Hh _]. rewrite Hh, Hs. cbn [set_state state].
      split; [tauto|].
      split; [intros [H' | H']; discriminate H' | intros _; discriminate].
    + destruct (finish_entry_inv W ptr m r m' (or_intror Hs) Hrun)
        as [Hh _]. rewrite Hh, Hs. cbn [set_state state].
      split; [tauto|].
      split; [intros [H' | H']; discriminate H' | intros _; discriminate].
    + rewrite finish_entry_stops in Hrun by (rewrite Hs; reflexivity).
      discriminate.
    + rewrite finish_entry_stops in Hrun by (rewrite Hs; reflexivity).
      discriminate.
  - destruct Hknown as [Hs | [Hs | [Hs | [Hs | Hs]]]].
    + unfold _archive_write_close, bind, get_archive in Hrun.
      rewrite Hs in Hrun. cbn in Hrun. inversion Hrun; subst.
      cbn [handle set_error_field state]. rewrite Hs.
      split; [tauto|]. split; [reflexivity | intros H; exact H].
    + rewrite (close_leaves_closed W ptr m r m' (or_introl Hs) Hrun), Hs.
      split; [tauto|].
      split; [intros [H' | H']; discriminate H' | intros _; discriminate].
    + rewrite (close_leaves_closed W ptr m r m' (or_intror Hs) Hrun), Hs.
      split; [tauto|].
      split; [intros [H' | H']; discriminate H' | intros _; discriminate].
    + unfold _archive_write_close, bind, get_archive in Hrun.
      rewrite Hs in Hrun. cbn in Hrun. inversion Hrun; subst.
      cbn [handle set_error_field state]. rewrite Hs.
      split; [tauto|]. split; [reflexivity | intros H; exact H].
    + unfold _archive_write_close, bind, get_archive in Hrun.
      rewrite Hs in Hrun. cbn in Hrun. inversion Hrun; subst.
      rewrite Hs.
      split; [tauto|]. split; [reflexivity | intros H; exact H].
Qed.

(** X15.  Over any sequence of open, set-skip-file, write-header,
    finish-entry and close calls that all return, the handle's state
    stays one of NEW, HEADER, DATA, CLOSED and FATAL; CLOSED and FATAL
    are never left, and a handle that has left NEW never comes back to
    it. *)
Theorem states_are_kept os : forall m rs m',
  write_state (state (handle m)) ->
  perform_all compression_none os m = Returned rs m' ->
  write_state (state (handle m')) /\
  (state (handle m) = ARCHIVE_STATE_CLOSED \/
   state (handle m) = ARCHIVE_STATE_FATAL ->
   state (handle m') = state (handle m)) /\
  (state (handle m) <> ARCHIVE_STATE_NEW ->
   state (handle m') <> ARCHIVE_STATE_NEW).
Proof.
  induction os as [|o os IH]; intros m rs m' Hknown Hrun;
    cbn [perform_all] in Hrun.
  - inversion Hrun; subst. split; [exact Hknown|].
    split; [reflexivity | intros H; exact H].
  - unfold bind in Hrun.
    destruct (perform compression_none o m) as [r m1|] eqn:Hone;
      [|discriminate].
    destruct (perform_all compression_none os m1) as [rs1 m2|] eqn:Hrest;
      [|discriminate].
    inversion Hrun; subst rs m'.
    destruct (perform_state o m r m1 Hknown Hone) as (Hk1 & Hend1 & Hnew1).
    destruct (IH m1 rs1 m2 Hk1 Hrest) as (Hk2 & Hend2 & Hnew2).
    split; [exact Hk2|]. split.
    + intros Hend. rewrite <- (Hend1 Hend). apply Hend2.
      rewrite (Hend1 Hend). exact Hend.
    + intros Hnew. apply Hnew2, Hnew1, Hnew.
Qed.


End Sequences.

(** * Concrete runs of the further properties *)

Lemma write_header_fatal_iff_witness :
  let m := Double.start (Double.archive ARCHIVE_STATE_HEADER [])
             [ARCHIVE_FATAL] in
  let m1 := moved ARCHIVE_STATE_HEADER (cleared m) in
  let m2 := called (call_format_write_header Double.entry) [] m1 in
  _archive_write_header Double.entry m =
    Returned ARCHIVE_FATAL (moved ARCHIVE_STATE_FATAL m2) /\
  state (handle (moved ARCHIVE_STATE_FATAL m2)) = ARCHIVE_STATE_FATAL.
Proof.
  intros m m1 m2.
  refine (proj1 (proj2 (write_header_fatal_iff (list Z) unit m Double.entry
                          ARCHIVE_OK m1 _ _))
            (fun _ => Double.scripted) _ _ _ _).
  - left. reflexivity.
  - reflexivity.
  - reflexivity.
  - right. apply Z.le_refl.
  - reflexivity.
  - reflexivity.
Defined.

Lemma skip_file_zero_disables_guard_witness :
  let m := Double.start
             (set_skip_file 0 2 (Double.archive ARCHIVE_STATE_HEADER []))
             [ARCHIVE_OK] in
  let entry := {| archive_entry_dev := 0; archive_entry_ino64 := 2 |} in
  exists r m',
    _archive_write_header entry m = Returned r m' /\
    trace m' = [call_format_write_header entry] /\
    (r = ARCHIVE_FATAL \/ r = Z.min ARCHIVE_OK ARCHIVE_OK).
Proof.
  intros m entry.
  refine (skip_file_zero_disables_guard (list Z) unit m entry ARCHIVE_OK
            (moved ARCHIVE_STATE_HEADER (cleared m))
            (fun _ => Double.scripted) _ _ _ _ _).
  - left. reflexivity.
  - reflexivity.
  - right. apply Z.le_refl.
  - left. reflexivity.
  - reflexivity.
Defined.

Lemma write_header_twice_witness :
  let m := Double.start (Double.archive ARCHIVE_STATE_HEADER [])
             [ARCHIVE_OK; ARCHIVE_WARN; ARCHIVE_OK] in
  let e2 := {| archive_entry_dev := 1; archive_entry_ino64 := 3 |} in
  let m1 := Fixture.after (_archive_write_header Double.entry m) m in
  let m2 := Fixture.after (_archive_write_header e2 m1) m1 in
  trace m1 = trace m ++ [call_format_write_header Double.entry] /\
  (trace m2 = trace m1 ++ [call_format_finish_entry] \/
   trace m2 = trace m1 ++
     [call_format_finish_entry; call_format_write_header e2]).
Proof.
  intros m e2 m1 m2.
  refine (write_header_twice (list Z) unit m Double.entry e2
            ARCHIVE_OK m1 ARCHIVE_WARN m2 _ _ _ _ _).
  - reflexivity.
  - reflexivity.
  - vm_compute. reflexivity.
  - discriminate.
  - vm_compute. reflexivity.
Defined.

Lemma finish_entry_twice_witness :
  let m := Double.start (Double.archive ARCHIVE_STATE_DATA [])
             [ARCHIVE_WARN; ARCHIVE_FAILED] in
  let m1 := Fixture.after (_archive_write_finish_entry m) m in
  _archive_write_finish_entry m1 = Returned ARCHIVE_OK m1.
Proof.
  intros m m1.
  refine (finish_entry_twice (list Z) unit m ARCHIVE_WARN m1 _ _).
  - right. reflexivity.
  - reflexivity.
Defined.

Lemma close_runs_all_phases_witness :
  let f := Double.filter (Some (external Double.scripted)) in
  let m := Double.start (Double.archive ARCHIVE_STATE_DATA [f])
             [ARCHIVE_FATAL; ARCHIVE_WARN; ARCHIVE_OK] in
  exists m',
    _archive_write_close m = Returned ARCHIVE_FATAL m' /\
    state (handle m') = ARCHIVE_STATE_CLOSED /\
    world m' = [] /\
    trace m' =
      [call_format_finish_entry; call_format_finish; call_filter_close 0].
Proof.
  intros f m.
  refine (close_runs_all_phases (list Z) unit m f [] _ _ _).
  - right. reflexivity.
  - discriminate.
  - reflexivity.
Defined.

Lemma close_twice_witness :
  let f := Double.filter (Some (external Double.scripted)) in
  let m := Double.start (Double.archive ARCHIVE_STATE_HEADER [f])
             [ARCHIVE_WARN; ARCHIVE_FAILED] in
  let m' := Fixture.after (_archive_write_close m) m in
  state (handle m') = ARCHIVE_STATE_CLOSED /\
  _archive_write_close m' = Returned ARCHIVE_OK (cleared m').
Proof.
  intros f m m'.
  refine (close_twice (list Z) unit m ARCHIVE_FAILED m' _ _).
  - left. reflexivity.
  - reflexivity.
Defined.

Lemma filter_lookup_positions_witness :
  let a := Double.archive ARCHIVE_STATE_NEW
             [Double.filter None; Double.tunable] in
  filter_lookup a 1 = Some Double.tunable /\
  filter_lookup a (-1) = Some Double.tunable /\
  _archive_filter_code a 2 = -1.
Proof.
  intros a.
  destruct (filter_lookup_positions (list Z) unit a 1) as (Hpos & Hlast & _).
  destruct (filter_lookup_positions (list Z) unit a 2) as (_ & _ & Hout).
  split; [exact (Hpos ltac:(discriminate))|].
  split; [exact (Hlast [Double.filter None] Double.tunable eq_refl)|].
  refine (proj1 (proj2 (Hout _))). right. left. discriminate.
Defined.

Lemma allocate_filter_appends_witness :
  let m := Double.start
             (Double.archive ARCHIVE_STATE_NEW [Double.tunable]) [] in
  exists m',
    __archive_write_allocate_filter m = Returned 1%nat m' /\
    world m' = world m /\ trace m' = trace m /\
    filter_lookup (handle m') 1 = Some blank_filter /\
    filter_lookup (handle m') (-1) = Some blank_filter /\
    _archive_filter_code (handle m') (-1) = 0 /\
    _archive_filter_bytes (handle m') (-1) = 0 /\
    (forall k : nat, (k < 1)%nat ->
     filter_lookup (handle m') (Z.of_nat k) =
     filter_lookup (handle m) (Z.of_nat k)).
Proof.
  intros m.
  exact (allocate_filter_appends (list Z) unit m eq_refl).
Defined.

Lemma open_result_witness :
  let m := Double.start
             (Double.archive ARCHIVE_STATE_NEW
                [Double.filter (Some (external Double.scripted))])
             [ARCHIVE_OK; ARCHIVE_WARN] in
  exists ret m2 m',
    __archive_write_open_filter 0
      (ready_to_open (Double.filter None) None None
         (Some Double.chunk_writer) None m) = Returned ret m2 /\
    archive_write_open (Double.filter None) None None
      (Some Double.chunk_writer) None m
      = Returned
          (if ret =? ARCHIVE_OK then fst (Double.scripted (world m2))
           else ret) m' /\
    world m' =
      (if ret =? ARCHIVE_OK then snd (Double.scripted (world m2))
       else world m2) /\
    trace m' =
      (if ret =? ARCHIVE_OK then trace m2 ++ [call_format_init]
       else trace m2).
Proof.
  intros m.
  exact (open_result (list Z) unit (Double.filter None) m None None
           (Some Double.chunk_writer) None eq_refl).
Defined.

Lemma open_binds_writer_witness :
  let m := Double.start (Double.archive ARCHIVE_STATE_NEW []) [] in
  let m' := Fixture.after
              (archive_write_open (Double.filter None) (Some tt) None
                 (Some Double.chunk_writer) None m) m in
  exists n f,
    nth_error (filters (handle m')) n = Some f /\
    filter_lookup (handle m') (-1) = Some f /\
    call_write 1 n f [x00; x01] 2 m' =
    Returned ARCHIVE_OK
      (called (call_client_writer 2 2) [] m').
Proof.
  intros m m'.
  assert (Hrun : archive_write_open (Double.filter None) (Some tt) None
                   (Some Double.chunk_writer) None m
                 = Returned ARCHIVE_OK m')
    by (vm_compute; reflexivity).
  destruct (open_binds_writer (list Z) unit (Double.filter None) m
              (Some tt) None Double.chunk_writer None ARCHIVE_OK m'
              0%nat [x00; x01] 2 eq_refl Hrun eq_refl)
    as (n & f & Hnth & Hlast & Hcall).
  exists n, f. split; [exact Hnth|]. split; [exact Hlast|].
  rewrite Hcall. vm_compute. reflexivity.
Defined.

Lemma char_keys_within : consumes_within Fixture.char_keys.
Proof.
  intros s fn ks vs. destruct s as [|c s]; cbn [Fixture.char_keys fst];
    [apply Z.le_refl|]. cbn [String.length]. lia.
Qed.

Lemma format_options_dispatch_witness :
  let m := Double.start (Fixture.tunable_archive [])
             [ARCHIVE_WARN; ARCHIVE_OK] in
  exists m',
    archive_write_set_format_options Fixture.char_keys (Some "ab"%string) m
      = Returned ARCHIVE_WARN m' /\
    world m' = [] /\
    trace m' = [call_format_options "a" None; call_format_options "b" None].
Proof.
  intros m.
  destruct (format_options_dispatch (list Z) unit Fixture.char_keys
              (Ascii.Ascii true false false false false true true false)
              "b"%string m (fun _ _ => Double.scripted)
              char_keys_within eq_refl eq_refl)
    as (m' & Hrun & Hworld & Htrace & _).
  exists m'. split; [exact Hrun|]. split; [exact Hworld | exact Htrace].
Defined.

Lemma compressor_options_reach_first_handler_witness :
  let m := Double.start
             (Double.archive ARCHIVE_STATE_NEW
                [Double.filter None; Double.tunable; Double.tunable])
             [ARCHIVE_OK; ARCHIVE_OK] in
  let m' := Fixture.after
              (archive_write_set_compressor_options Fixture.char_keys
                 (Some "ab"%string) m) m in
  exists evs,
    trace m' = trace m ++ evs /\
    Forall (is_filter_option_call 1) evs.
Proof.
  intros m m'.
  exact (compressor_options_reach_first_handler (list Z) unit
           Fixture.char_keys (Some "ab"%string) m ARCHIVE_OK m' eq_refl).
Defined.

Lemma set_options_nothing_to_do_witness :
  let m := Double.start Fixture.bare_archive [] in
  archive_write_set_options Fixture.char_keys (Some "x=1,!!"%string) m
    = Returned ARCHIVE_OK (cleared m).
Proof.
  intros m.
  refine (set_options_nothing_to_do (list Z) unit Fixture.char_keys
            (Some "x=1,!!"%string) m eq_refl _).
  right. right. split; reflexivity.
Defined.

Lemma states_are_kept_witness :
  let m := Double.start (Double.archive ARCHIVE_STATE_NEW [])
             [ARCHIVE_OK; ARCHIVE_OK; ARCHIVE_FATAL] in
  let os := [do_open None None None None;
             do_write_header Double.entry;
             do_write_header Double.entry;
             do_close; do_set_skip_file 1 2; do_close] in
  let m' := Fixture.after (perform_all (Double.filter None) os m) m in
  write_state (state (handle m')) /\
  (state (handle m) = ARCHIVE_STATE_CLOSED \/
   state (handle m) = ARCHIVE_STATE_FATAL ->
   state (handle m') = state (handle m)) /\
  (state (handle m) <> ARCHIVE_STATE_NEW ->
   state (handle m') <> ARCHIVE_STATE_NEW).
Proof.
  intros m os m'.
  refine (states_are_kept (list Z) unit (Double.filter None) os m
            [ARCHIVE_OK; ARCHIVE_OK; ARCHIVE_FATAL; ARCHIVE_FATAL;
             ARCHIVE_OK; ARCHIVE_FATAL] m' _ _).
  - left. reflexivity.
  - vm_compute. reflexivity.
Defined.

